(** * The split-candidate frontier of the SGB leaf-wise booster

    A shallow embedding of
    [secretflow/ml/boost/sgb_v/factory/components/split_candidate_manager/split_candidate_manager.py]
    together with the part of Python's [heapq] module it calls, and the
    properties of the priority frontier it implements.

    - Python objects that are mutated in place (the list [self.heap], the
      manager's attributes) are the state of a small state-and-exception
      monad; a raised exception keeps the state reached when it was raised.
    - Python [float]s are IEEE 754 binary64 numbers: [PrimFloat.float].
    - Python lists are [list]s, indexed with stdpp's [!!] and [<[_:=_]>];
      an index out of range raises [IndexError] as Python does.
    - [while] loops are functions by well-founded recursion. *)

From Stdlib Require Import ZArith Floats Lia.
From Stdlib Require String DecimalString DecimalZ.
From Equations Require Import Equations.
From stdpp Require Import base list sorting.

#[local] Set Warnings "-inexact-float".
#[local] Open Scope nat_scope.

(** ** Python run-time model *)

Module Py.

(** The built-in exceptions this code can raise. *)
Inductive exn : Type :=
| IndexError      (* list index out of range, pop from empty list *)
| AttributeError. (* attribute access on None *)

Inductive result (A : Type) : Type :=
| Ok (a : A)
| Raise (e : exn).
Arguments Ok {A} a.
Arguments Raise {A} e.

(** A computation over a mutable object of type [St]. *)
Definition M (St A : Type) : Type := St -> result A * St.

Definition ret {St A} (a : A) : M St A := fun s => (Ok a, s).
Definition bind {St A B} (m : M St A) (k : A -> M St B) : M St B :=
  fun s =>
    match m s with
    | (Ok a, s') => k a s'
    | (Raise e, s') => (Raise e, s')
    end.
Definition get {St} : M St St := fun s => (Ok s, s).
Definition put {St} (s : St) : M St unit := fun _ => (Ok tt, s).

(** A value computed without touching the object, or an exception. *)
Definition lift {St A} (r : result A) : M St A := fun s => (r, s).

(** [for i, x in enumerate(l, start): body(i, x)] *)
Fixpoint for_enumerate {St A} (start : nat) (l : list A)
    (body : nat -> A -> M St unit) : M St unit :=
  match l with
  | [] => ret tt
  | x :: l' => bind (body start x) (fun _ => for_enumerate (S start) l' body)
  end.

(** [l[i]] for a non-negative index [i]. *)
Definition index {A} (l : list A) (i : nat) : result A :=
  match l !! i with
  | Some x => Ok x
  | None => Raise IndexError
  end.

Section ListObject.
Context {A : Type}.

(** [len(l)] *)
Definition len : M (list A) nat := fun l => (Ok (length l), l).

(** [l[i]] *)
Definition getitem (i : nat) : M (list A) A := fun l => (index l i, l).

(** [l[i] = x] *)
Definition setitem (i : nat) (x : A) : M (list A) unit :=
  fun l =>
    if decide (i < length l) then (Ok tt, <[i:=x]> l)
    else (Raise IndexError, l).

(** [l.append(x)] *)
Definition append (x : A) : M (list A) unit := fun l => (Ok tt, l ++ [x]).

(** [l.pop()] *)
Definition pop : M (list A) A :=
  fun l =>
    match last l with
    | Some x => (Ok x, removelast l)
    | None => (Raise IndexError, l)
    end.
End ListObject.

End Py.

Import Py.

Declare Scope py_scope.
Delimit Scope py_scope with py.
Notation "x <- m ;; k" := (bind m (fun x => k))
  (at level 100, m at level 99, right associativity) : py_scope.
Notation "m ;; k" := (bind m (fun _ => k))
  (at level 100, right associativity) : py_scope.
#[local] Open Scope py_scope.

(** ** [heapq]: the binary min-heap of Python's standard library

    [heappush] and [heappop] with their helpers [_siftdown] and [_siftup],
    as in CPython's [Lib/heapq.py]; the Python text of each function stands
    above its model.  [heapq] orders the items with their [<] alone;
    [less a b] is [a < b]. *)

Module heapq.
Section heapq.
Context {T : Type} (less : T -> T -> bool).

(** The loop of [_siftdown]:
<<
while pos > startpos:
    parentpos = (pos - 1) >> 1
    parent = heap[parentpos]
    if newitem < parent:
        heap[pos] = parent
        pos = parentpos
        continue
    break
>>
  It returns the final [pos]. *)
Equations? siftdown_loop (startpos pos : nat) (newitem : T)
: M (list T) nat by wf pos lt :=
siftdown_loop startpos pos newitem with decide (startpos < pos) := {
| left _ =>
    parent <- getitem ((pos - 1) / 2) ;;
    if less newitem parent
    then setitem pos parent ;;
         siftdown_loop startpos ((pos - 1) / 2) newitem
    else ret pos
| right _ => ret pos }.
Proof.
assert (pos - 1 = 2 * ((pos - 1) / 2) + (pos - 1) mod 2)
  by apply Nat.div_mod_eq.
lia.
Qed.

(**
<<
def _siftdown(heap, startpos, pos):
    newitem = heap[pos]
    <loop>
    heap[pos] = newitem
>> *)
Definition _siftdown (startpos pos : nat) : M (list T) unit :=
newitem <- getitem pos ;;
pos <- siftdown_loop startpos pos newitem ;;
setitem pos newitem.

(** The loop of [_siftup], with [childpos = 2*pos + 1] on entry:
<<
while childpos < endpos:
    rightpos = childpos + 1
    if rightpos < endpos and not heap[childpos] < heap[rightpos]:
        childpos = rightpos
    heap[pos] = heap[childpos]
    pos = childpos
    childpos = 2*pos + 1
>>
  It returns the final [pos]. *)
Definition take_right (endpos childpos : nat) : M (list T) bool :=
let rightpos := childpos + 1 in
if decide (rightpos < endpos)
then l <- getitem childpos ;;
     r <- getitem rightpos ;;
     ret (negb (less l r))
else ret false.

Equations? siftup_loop (endpos pos childpos : nat)
: M (list T) nat by wf (endpos - childpos) lt :=
siftup_loop endpos pos childpos with decide (childpos < endpos) := {
| left _ =>
    right <- take_right endpos childpos ;;
    let childpos := if right : bool then childpos + 1 else childpos in
    child <- getitem childpos ;;
    setitem pos child ;;
    siftup_loop endpos childpos (2 * childpos + 1)
| right _ => ret pos }.
Proof. destruct right; lia. Qed.

(**
<<
def _siftup(heap, pos):
    endpos = len(heap)
    startpos = pos
    newitem = heap[pos]
    childpos = 2*pos + 1
    <loop>
    heap[pos] = newitem
    _siftdown(heap, startpos, pos)
>> *)
Definition _siftup (pos : nat) : M (list T) unit :=
endpos <- len ;;
let startpos := pos in
newitem <- getitem pos ;;
pos <- siftup_loop endpos pos (2 * pos + 1) ;;
setitem pos newitem ;;
_siftdown startpos pos.

(**
<<
def heappush(heap, item):
    heap.append(item)
    _siftdown(heap, 0, len(heap)-1)
>> *)
Definition heappush (item : T) : M (list T) unit :=
append item ;;
n <- len ;;
_siftdown 0 (n - 1).

(**
<<
def heappop(heap):
    lastelt = heap.pop()
    if heap:
        returnitem = heap[0]
        heap[0] = lastelt
        _siftup(heap, 0)
        return returnitem
    return lastelt
>> *)
Definition heappop : M (list T) T :=
lastelt <- pop ;;
n <- len ;;
if decide (n <> 0)
then returnitem <- getitem 0 ;;
     setitem 0 lastelt ;;
     _siftup 0 ;;
     ret returnitem
else ret lastelt.

End heapq.
End heapq.

(** ** The candidate record *)

(** A one-dimensional [np.ndarray] is the list of its entries. *)
Abbreviation ndarray A := (list A) (only parsing).

(** [@dataclass class SplitCandidateInfo] *)
Record SplitCandidateInfo : Type := {
  sample_selects : ndarray Z;   (* which samples are in this node *)
  max_gain : float;             (* max_gain > gamma: pruned nodes are not candidates *)
  split_bucket : Z              (* the bucket of the max gain *)
}.

(** [class SplitCandidate] *)
Record SplitCandidate : Type := {
  node_index : Z;
  info : SplitCandidateInfo
}.

Module SplitCandidate.

Definition __init__ (node_index : Z) (sample_selects : ndarray Z)
    (max_gain : float) (split_bucket : Z) : SplitCandidate :=
  {| node_index := node_index;
     info := {| sample_selects := sample_selects;
                max_gain := max_gain;
                split_bucket := split_bucket |} |}.

(** [self.info.max_gain > other.info.max_gain]: IEEE 754 [a > b] is [b < a]. *)
Definition __lt__ (self other : SplitCandidate) : bool :=
  (max_gain (info other) <? max_gain (info self))%float.

(** [self.info.max_gain == other.info.max_gain] *)
Definition __eq__ (self other : SplitCandidate) : bool :=
  (max_gain (info self) =? max_gain (info other))%float.


End SplitCandidate.

(** ** [class SplitCandidateHeap]

    The object has the single attribute [self.heap], a Python list.  The
    [@proxy(PYUObject)] decoration places the object on one device; calls are
    modelled as the synchronous calls of the class body. *)

Module SplitCandidateHeap.

Definition t : Type := list SplitCandidate.

Definition __init__ : t := [].

Definition push (node_index : Z) (sample_selects : ndarray Z)
    (max_gain : float) (split_bucket : Z) : M t unit :=
  heapq.heappush SplitCandidate.__lt__
    (SplitCandidate.__init__ node_index sample_selects max_gain split_bucket).

Definition batch_push (node_indices : list Z)
    (node_sample_selects : list (ndarray Z)) (split_buckets : ndarray Z)
    (split_gains : ndarray float) (gain_is_cost_effective : list bool)
    : M t unit :=
  for_enumerate 0 gain_is_cost_effective (fun i effective =>
    if effective : bool
    then a <- lift (index node_indices i) ;;
         b <- lift (index node_sample_selects i) ;;
         c <- lift (index split_gains i) ;;
         d <- lift (index split_buckets i) ;;
         push a b c d
    else ret tt).

Definition pop : M t SplitCandidate :=
  heapq.heappop SplitCandidate.__lt__.

Definition extract_best_split_info : M t (Z * ndarray Z * Z) :=
  best_candidate <- pop ;;
  ret (node_index best_candidate,
       sample_selects (info best_candidate),
       split_bucket (info best_candidate)).

Definition extract_all_nodes : M t (list Z * list (ndarray Z)) :=
  heap <- get ;;
  let ids := map node_index heap in
  let sample_selects := map (fun candidate => sample_selects (info candidate)) heap in
  put [] ;;
  ret (ids, sample_selects).

Definition reset : M t unit := put [].

End SplitCandidateHeap.

(** ** [class SplitCandidateManager] *)

(** Modelled from the spec: [Devices] of [..component] is not part of the
    given source.  The manager reads only its [label_holder], the single
    execution context that owns the ranking; a device is named by a number. *)
Definition PYU : Type := nat.
Record Devices : Type := { devices_label_holder : PYU }.

Module SplitCandidateManager.

Record t : Type := {
  params : option unit;
  label_holder : option PYU;
  heap : option SplitCandidateHeap.t   (* [None] until [set_devices] *)
}.

Definition __init__ : t :=
  {| params := None; label_holder := None; heap := None |}.

Definition show_params : M t unit := ret tt.
Definition set_params : M t unit := ret tt.
Definition get_params : M t unit := ret tt.

Definition set_devices (devices : Devices) : M t unit :=
  fun self =>
    (Ok tt, {| params := params self;
               label_holder := Some (devices_label_holder devices);
               heap := Some SplitCandidateHeap.__init__ |}).

(** [self.heap.method(...)]: looking the method up on [None] raises
    [AttributeError] before any argument is used. *)
Definition on_heap {A} (method : M SplitCandidateHeap.t A) : M t A :=
  fun self =>
    match heap self with
    | None => (Raise AttributeError, self)
    | Some h =>
        let (r, h') := method h in
        (r, {| params := params self;
               label_holder := label_holder self;
               heap := Some h' |})
    end.

Definition batch_push (node_indices : list Z)
    (node_sample_selects : list (ndarray Z)) (split_buckets : ndarray Z)
    (split_gains : ndarray float) (gain_is_cost_effective : list bool)
    : M t unit :=
  on_heap (SplitCandidateHeap.batch_push node_indices node_sample_selects
             split_buckets split_gains gain_is_cost_effective).

Definition push (node_index : Z) (sample_selects : ndarray Z)
    (max_gain : float) (split_bucket : Z) : M t unit :=
  on_heap (SplitCandidateHeap.push node_index sample_selects max_gain split_bucket).

Definition extract_best_split_info : M t (Z * ndarray Z * Z) :=
  on_heap SplitCandidateHeap.extract_best_split_info.

Definition extract_all_nodes : M t (list Z * list (ndarray Z)) :=
  on_heap SplitCandidateHeap.extract_all_nodes.

Definition reset : M t unit := on_heap SplitCandidateHeap.reset.

End SplitCandidateManager.


(** ** Callers of the frontier

    The properties below speak of what callers observe: sequences of calls,
    the records a batch admits, and draining by repeated [pop]. *)

(** A gain that can be ranked: any float but NaN. *)
Definition gain_ok (g : float) : bool := negb (is_nan g).

Definition gain (c : SplitCandidate) : float := max_gain (info c).

(** What leaves the frontier about a record: its node id and sample mask. *)
Definition node_pair (c : SplitCandidate) : Z * ndarray Z :=
  (node_index c, sample_selects (info c)).

(** No two records of the list have gains that Python's [==] equates. *)
Fixpoint distinct_gains (l : list SplitCandidate) : bool :=
  match l with
  | [] => true
  | c :: l' =>
      forallb (fun c' => negb (gain c =? gain c')%float) l' && distinct_gains l'
  end.

(** The record that [batch_push] builds at index [i], if every array has one. *)
Definition record_at (node_indices : list Z)
    (node_sample_selects : list (ndarray Z)) (split_buckets : ndarray Z)
    (split_gains : ndarray float) (i : nat) : option SplitCandidate :=
  match node_indices !! i, node_sample_selects !! i, split_gains !! i, split_buckets !! i with
  | Some a, Some b, Some c, Some d => Some (SplitCandidate.__init__ a b c d)
  | _, _, _, _ => None
  end.

(** The records at the indices [start, start+1, ...] whose flag is true. *)
Fixpoint admitted_from (record : nat -> option SplitCandidate)
    (start : nat) (flags : list bool) : list SplitCandidate :=
  match flags with
  | [] => []
  | f :: flags' =>
      (if f then option_list (record start) else [])
        ++ admitted_from record (S start) flags'
  end.

Definition admitted (node_indices : list Z)
    (node_sample_selects : list (ndarray Z)) (split_buckets : ndarray Z)
    (split_gains : ndarray float) (gain_is_cost_effective : list bool)
    : list SplitCandidate :=
  admitted_from (record_at node_indices node_sample_selects split_buckets split_gains)
    0 gain_is_cost_effective.

(** The first index, from [start] on, whose flag is true and whose record
    cannot be built. *)
Fixpoint first_bad (record : nat -> option SplitCandidate)
    (start : nat) (flags : list bool) : option nat :=
  match flags with
  | [] => None
  | f :: flags' =>
      if f && negb (bool_decide (is_Some (record start))) then Some start
      else first_bad record (S start) flags'
  end.

(** The part of the flags that [batch_push] gets through. *)
Definition processed (record : nat -> option SplitCandidate)
    (start : nat) (flags : list bool) : list bool :=
  match first_bad record start flags with
  | None => flags
  | Some k => take (k - start) flags
  end.

Inductive call : Type :=
| Push (node_index : Z) (sample_selects : ndarray Z) (max_gain : float) (split_bucket : Z)
| BatchPush (node_indices : list Z) (node_sample_selects : list (ndarray Z))
    (split_buckets : ndarray Z) (split_gains : ndarray float)
    (gain_is_cost_effective : list bool)
| Pop
| ExtractBestSplitInfo
| ExtractAllNodes
| Reset.

(** A call, and the (node id, sample mask) pairs it hands to the caller. *)
Definition exec (c : call) : M SplitCandidateHeap.t (list (Z * ndarray Z)) :=
  match c with
  | Push a b g d => SplitCandidateHeap.push a b g d ;; ret []
  | BatchPush ids masks buckets gains flags =>
      SplitCandidateHeap.batch_push ids masks buckets gains flags ;; ret []
  | Pop =>
      c <- SplitCandidateHeap.pop ;; ret [node_pair c]
  | ExtractBestSplitInfo =>
      r <- SplitCandidateHeap.extract_best_split_info ;; ret [(r.1.1, r.1.2)]
  | ExtractAllNodes =>
      r <- SplitCandidateHeap.extract_all_nodes ;; ret (zip r.1 r.2)
  | Reset => SplitCandidateHeap.reset ;; ret []
  end.

(** A caller making the calls [cs] in turn, going on after an exception;
    the result is everything handed back and the final frontier. *)
Fixpoint run (cs : list call) (h : SplitCandidateHeap.t)
    : list (Z * ndarray Z) * SplitCandidateHeap.t :=
  match cs with
  | [] => ([], h)
  | c :: cs' =>
      let (r, h') := exec c h in
      let (out, h'') := run cs' h' in
      (match r with Ok o => o | Raise _ => [] end ++ out, h'')
  end.

(** The call that pushes the record [c]. *)
Definition push_record (c : SplitCandidate) : call :=
  Push (node_index c) (sample_selects (info c)) (gain c) (split_bucket (info c)).

(** The pushed gains of a call can all be ranked. *)
Definition call_ok (c : call) : bool :=
  match c with
  | Push _ _ g _ => gain_ok g
  | BatchPush _ _ _ gains flags =>
      forallb (fun gf : float * bool => negb gf.2 || gain_ok gf.1) (zip gains flags)
  | _ => true
  end.

(** A call that inserts nothing. *)
Definition is_read (c : call) : bool :=
  match c with
  | Push _ _ _ _ | BatchPush _ _ _ _ _ => false
  | _ => true
  end.

(** [n] times [pop()], collecting what is popped. *)
Fixpoint pop_n (n : nat) : M SplitCandidateHeap.t (list SplitCandidate) :=
  match n with
  | 0 => ret []
  | S n' =>
      c <- SplitCandidateHeap.pop ;;
      rest <- pop_n n' ;;
      ret (c :: rest)
  end.

(** Pop until the frontier is empty. *)
Definition pop_until_empty : M SplitCandidateHeap.t (list SplitCandidate) :=
  h <- get ;; pop_n (length h).

(** Gains never increase along the list, as Python's [>=] sees them. *)
Definition non_increasing (gains : list float) : Prop :=
  forall i j a b, i < j -> gains !! i = Some a -> gains !! j = Some b ->
    (b <=? a)%float = true.

(** The records a call stores in the frontier. *)
Definition pushed_records (c : call) : list SplitCandidate :=
  match c with
  | Push a b g d => [SplitCandidate.__init__ a b g d]
  | BatchPush ids masks buckets gains flags =>
      admitted ids masks buckets gains
        (processed (record_at ids masks buckets gains) 0 flags)
  | _ => []
  end.

Definition is_reset (c : call) : bool :=
  match c with Reset => true | _ => false end.

(** ** Callers of the manager *)

Inductive manager_call : Type :=
| SetDevices (devices : Devices)
| ShowParams
| SetParams
| GetParams
| ManagerPush (node_index : Z) (sample_selects : ndarray Z) (max_gain : float)
    (split_bucket : Z)
| ManagerBatchPush (node_indices : list Z) (node_sample_selects : list (ndarray Z))
    (split_buckets : ndarray Z) (split_gains : ndarray float)
    (gain_is_cost_effective : list bool)
| ManagerExtractBestSplitInfo
| ManagerExtractAllNodes
| ManagerReset.

(** A call on the manager, and the (node id, sample mask) pairs it hands to
    the caller. *)
Definition manager_exec (c : manager_call)
    : M SplitCandidateManager.t (list (Z * ndarray Z)) :=
  match c with
  | SetDevices devices => SplitCandidateManager.set_devices devices ;; ret []
  | ShowParams => SplitCandidateManager.show_params ;; ret []
  | SetParams => SplitCandidateManager.set_params ;; ret []
  | GetParams => SplitCandidateManager.get_params ;; ret []
  | ManagerPush a b g d => SplitCandidateManager.push a b g d ;; ret []
  | ManagerBatchPush ids masks buckets gains flags =>
      SplitCandidateManager.batch_push ids masks buckets gains flags ;; ret []
  | ManagerExtractBestSplitInfo =>
      r <- SplitCandidateManager.extract_best_split_info ;; ret [(r.1.1, r.1.2)]
  | ManagerExtractAllNodes =>
      r <- SplitCandidateManager.extract_all_nodes ;; ret (zip r.1 r.2)
  | ManagerReset => SplitCandidateManager.reset ;; ret []
  end.

(** A caller making the manager calls [cs] in turn, going on after an
    exception. *)
Fixpoint manager_run (cs : list manager_call) (m : SplitCandidateManager.t)
    : list (Z * ndarray Z) * SplitCandidateManager.t :=
  match cs with
  | [] => ([], m)
  | c :: cs' =>
      let (r, m') := manager_exec c m in
      let (out, m'') := manager_run cs' m' in
      (match r with Ok o => o | Raise _ => [] end ++ out, m'')
  end.

(** The frontier call that a manager call delegates to, if any. *)
Definition delegate (c : manager_call) : option call :=
  match c with
  | ManagerPush a b g d => Some (Push a b g d)
  | ManagerBatchPush ids masks buckets gains flags =>
      Some (BatchPush ids masks buckets gains flags)
  | ManagerExtractBestSplitInfo => Some ExtractBestSplitInfo
  | ManagerExtractAllNodes => Some ExtractAllNodes
  | ManagerReset => Some Reset
  | _ => None
  end.

Definition is_set_devices (c : manager_call) : bool :=
  match c with SetDevices _ => true | _ => false end.

(** ** The orders the properties speak of *)

(** The parent of position [i > 0]: [(i - 1) >> 1]. *)
Definition parent (i : nat) : nat := (i - 1) / 2.

Section HeapOrder.
Context {T : Type} (less : T -> T -> bool).

(** [not (b < a)]: [a] may stand above [b] in a heap. *)
Definition item_le (a b : T) : Prop := less b a = false.

(** No item is smaller than its parent. *)
Definition is_heap (h : list T) : Prop :=
  forall i x p, 0 < i -> h !! i = Some x -> h !! parent i = Some p -> item_le p x.

(** The heap order holds everywhere but around position [pos], whose children
    are not smaller than its parent. *)
Definition hole_ok (h : list T) (pos : nat) : Prop :=
  (forall i x p, 0 < i -> i <> pos -> parent i <> pos ->
     h !! i = Some x -> h !! parent i = Some p -> item_le p x) /\
  (forall c x p, 0 < pos -> 0 < c -> parent c = pos ->
     h !! c = Some x -> h !! parent pos = Some p -> item_le p x).

(** [newitem] is not larger than the children of [pos]. *)
Definition above_children (h : list T) (pos : nat) (newitem : T) : Prop :=
  forall c x, 0 < c -> parent c = pos -> h !! c = Some x -> item_le newitem x.

End HeapOrder.

(** [SFcompare], which specifies the primitive float comparisons, compares
    lexicographically (class and sign, exponent, mantissa); [sf_key] makes the
    triple explicit.  NaN is unordered and its key means nothing. *)
Definition sf_key (f : spec_float) : Z * Z * Z :=
  match f with
  | S754_zero _ => (0, 0, 0)
  | S754_infinity false => (2, 0, 0)
  | S754_infinity true => (-2, 0, 0)
  | S754_nan => (0, 0, 0)
  | S754_finite false m e => (1, e, Z.pos m)
  | S754_finite true m e => (-1, - e, Z.neg m)
  end%Z.

Definition float_key (x : float) : Z * Z * Z := sf_key (Prim2SF x).

Definition key_lt (a b : Z * Z * Z) : Prop :=
  (a.1.1 < b.1.1 \/ (a.1.1 = b.1.1 /\ (a.1.2 < b.1.2 \/ (a.1.2 = b.1.2 /\ a.2 < b.2))))%Z.

Definition key_le (a b : Z * Z * Z) : Prop := a = b \/ key_lt a b.

(** [a >= b] as Python evaluates it. *)
Definition ge_float (a b : float) : Prop := (b <=? a)%float = true.

(** A record whose gain can be ranked. *)
Definition cand_ok (c : SplitCandidate) : Prop := gain_ok (gain c) = true.

(** The frontier holds rankable records in heap order. *)
Definition frontier_ok (h : SplitCandidateHeap.t) : Prop :=
  is_heap SplitCandidate.__lt__ h /\ Forall cand_ok h.

(** The three pushes of the specification's example. *)
Definition example_pushes : list call :=
  [ Push 1 [1; 0; 1]%Z 0.8%float 3;
    Push 2 [0; 1; 0]%Z 1.5%float 1;
    Push 3 [1; 1; 0]%Z 1.5%float 2 ].

(** * Verification *)

(** ** Running the list primitives *)

Section ListObjectFacts.
Context {A : Type}.
Implicit Types (l : list A) (x : A) (i : nat).

Lemma getitem_Some l i x : l !! i = Some x -> getitem i l = (Ok x, l).
Proof. intros H. unfold getitem, index. now rewrite H. Qed.

Lemma setitem_lt l i x : i < length l -> setitem i x l = (Ok tt, <[i:=x]> l).
Proof. intros H. unfold setitem. destruct (decide (i < length l)); [reflexivity | lia]. Qed.

Lemma pop_snoc l x : pop (l ++ [x]) = (Ok x, l).
Proof. unfold pop. now rewrite last_snoc, removelast_last. Qed.

End ListObjectFacts.

(** ** The heap order of [heapq] *)

Lemma parent_spec c : 0 < c -> c = 2 * parent c + 1 \/ c = 2 * parent c + 2.
Proof.
  intros Hc. unfold parent.
  pose proof (Nat.div_mod_eq (c - 1) 2) as E.
  pose proof (Nat.mod_upper_bound (c - 1) 2) as B. lia.
Qed.

Lemma parent_lt c : 0 < c -> parent c < c.
Proof. intros Hc. destruct (parent_spec c Hc); lia. Qed.

Lemma parent_left p : parent (2 * p + 1) = p.
Proof. destruct (parent_spec (2 * p + 1)); lia. Qed.

Lemma parent_right p : parent (2 * p + 1 + 1) = p.
Proof. destruct (parent_spec (2 * p + 1 + 1)); lia. Qed.

Section heapq_unfold.
Context {T : Type} (less : T -> T -> bool).

Lemma siftdown_loop_unfold startpos pos newitem :
  heapq.siftdown_loop less startpos pos newitem =
  if decide (startpos < pos)
  then par <- getitem (parent pos) ;;
       if less newitem par
       then setitem pos par ;; heapq.siftdown_loop less startpos (parent pos) newitem
       else ret pos
  else ret pos.
Proof.
  rewrite heapq.siftdown_loop_equation_1.
  destruct (decide (startpos < pos)); reflexivity.
Qed.

Lemma siftup_loop_unfold endpos pos childpos :
  heapq.siftup_loop less endpos pos childpos =
  if decide (childpos < endpos)
  then right <- heapq.take_right less endpos childpos ;;
       let childpos := if right : bool then childpos + 1 else childpos in
       child <- getitem childpos ;;
       setitem pos child ;;
       heapq.siftup_loop less endpos childpos (2 * childpos + 1)
  else ret pos.
Proof.
  rewrite heapq.siftup_loop_equation_1.
  destruct (decide (childpos < endpos)); reflexivity.
Qed.
End heapq_unfold.

(** ** [heapq] keeps the heap order

    The items of a heap are assumed to satisfy [ok], a set on which
    [item_le] is a total preorder. *)

Section heapq_correct.
Context {T : Type} (less : T -> T -> bool) (ok : T -> Prop).

Hypothesis le_total :
  forall a b, ok a -> ok b -> item_le less a b \/ item_le less b a.
Hypothesis le_trans :
  forall a b c, ok a -> ok b -> ok c ->
    item_le less a b -> item_le less b c -> item_le less a c.

Lemma le_of_less a b : ok a -> ok b -> less a b = true -> item_le less a b.
Proof.
  intros Ha Hb Hl. destruct (le_total a b Ha Hb) as [H | H]; [exact H |].
  unfold item_le in H. congruence.
Qed.

Lemma le_refl a : ok a -> item_le less a a.
Proof. intros Ha. destruct (le_total a a Ha Ha); assumption. Qed.

Lemma hole_ok_insert h pos x : hole_ok less h pos -> hole_ok less (<[pos:=x]> h) pos.
Proof.
  intros [H1 H2]. split.
  - intros i y p Hi Hne Hpne Hy Hp.
    rewrite list_lookup_insert_ne in Hy, Hp by congruence. eauto.
  - intros c y p Hpos Hc Hpc Hy Hp.
    assert (parent pos < pos) by now apply parent_lt.
    assert (parent c < c) by now apply parent_lt.
    rewrite list_lookup_insert_ne in Hy, Hp by lia. eauto.
Qed.


Lemma siftdown_loop_run pos : forall newitem h,
  pos < length h ->
  exists pos' h',
    heapq.siftdown_loop less 0 pos newitem h = (Ok pos', h') /\
    pos' < length h' /\
    <[pos':=newitem]> h' ≡ₚ <[pos:=newitem]> h /\
    (Forall ok h -> ok newitem -> hole_ok less h pos -> above_children less h pos newitem ->
     is_heap less (<[pos':=newitem]> h')).
Proof.
  induction pos as [pos IH] using lt_wf_ind. intros newitem h Hlen.
  rewrite siftdown_loop_unfold.
  destruct (decide (0 < pos)) as [Hpos | Hpos].
  - pose proof (parent_lt pos Hpos) as Hpp.
    destruct (lookup_lt_is_Some_2 h (parent pos)) as [par Hpar]; [lia |].
    unfold bind at 1. rewrite (getitem_Some _ _ _ Hpar).
    destruct (less newitem par) eqn:Hless.
    + unfold bind at 1. rewrite setitem_lt by assumption.
      destruct (IH (parent pos) Hpp newitem (<[pos:=par]> h)) as (pos' & h' & Hrun & Hlt & Hperm & Hheap).
      { rewrite length_insert. lia. }
      exists pos', h'. split; [exact Hrun |]. split; [exact Hlt |]. split.
      * rewrite Hperm.
        rewrite <- (list_insert_insert_eq h pos par newitem).
        apply Permutation_insert_swap.
        -- now apply list_lookup_insert_eq.
        -- rewrite list_lookup_insert_ne by lia. exact Hpar.
      * intros Hok Hnew [Hedges Hgrand] Hch.
        assert (Hokpar : ok par) by (eapply Forall_lookup_1; eauto).
        assert (Hnp : item_le less newitem par) by (apply le_of_less; auto).
        apply Hheap; [now apply Forall_insert | assumption | |].
        -- split.
           ++ intros i x p Hi Hne Hpne Hx Hp.
              destruct (decide (i = pos)) as [-> | Hip]; [congruence |].
              rewrite list_lookup_insert_ne in Hx by congruence.
              destruct (decide (parent i = pos)) as [Hpi | Hpi].
              ** rewrite Hpi, list_lookup_insert_eq in Hp by assumption.
                 injection Hp as <-. eapply Hgrand; eauto.
              ** rewrite list_lookup_insert_ne in Hp by congruence. eauto.
           ++ intros c x p Hpp0 Hc Hpc Hx Hp.
              pose proof (parent_lt _ Hpp0) as Hppp.
              rewrite list_lookup_insert_ne in Hp by lia.
              assert (Hpp_par : item_le less p par)
                by (apply (Hedges (parent pos) par p); [lia | lia | lia | assumption | assumption]).
              destruct (decide (c = pos)) as [-> | Hcp].
              ** rewrite list_lookup_insert_eq in Hx by assumption. now injection Hx as <-.
              ** rewrite list_lookup_insert_ne in Hx by congruence.
                 assert (item_le less par x)
                   by (apply (Hedges c x par); [lia | congruence | lia | assumption | now rewrite Hpc]).
                 eapply (le_trans p par x); eauto; eapply Forall_lookup_1; eauto.
        -- intros c x Hc Hpc Hx.
           destruct (decide (c = pos)) as [-> | Hcp].
           ++ rewrite list_lookup_insert_eq in Hx by assumption. now injection Hx as <-.
           ++ rewrite list_lookup_insert_ne in Hx by congruence.
              assert (item_le less par x)
                by (apply (Hedges c x par); [lia | congruence | lia | assumption | now rewrite Hpc]).
              eapply (le_trans newitem par x); eauto; eapply Forall_lookup_1; eauto.
    + exists pos, h. split; [reflexivity |]. split; [assumption |]. split; [reflexivity |].
      intros Hok Hnew [Hedges Hgrand] Hch i x p Hi Hx Hp.
      destruct (decide (i = pos)) as [-> | Hip].
      * rewrite list_lookup_insert_eq in Hx by assumption. injection Hx as <-.
        rewrite list_lookup_insert_ne in Hp by lia.
        assert (p = par) as -> by congruence. exact Hless.
      * rewrite list_lookup_insert_ne in Hx by congruence.
        destruct (decide (parent i = pos)) as [Hpi | Hpi].
        -- rewrite Hpi, list_lookup_insert_eq in Hp by assumption.
           injection Hp as <-. eapply Hch; eauto.
        -- rewrite list_lookup_insert_ne in Hp by congruence. eauto.
  - exists pos, h. split; [reflexivity |]. split; [assumption |]. split; [reflexivity |].
    intros Hok Hnew [Hedges Hgrand] Hch i x p Hi Hx Hp.
    assert (pos = 0) as -> by lia.
    rewrite list_lookup_insert_ne in Hx by lia.
    destruct (decide (parent i = 0)) as [Hpi | Hpi].
    + rewrite Hpi, list_lookup_insert_eq in Hp by assumption.
      injection Hp as <-. eapply Hch; eauto.
    + rewrite list_lookup_insert_ne in Hp by congruence.
      eapply Hedges; eauto; lia.
Qed.


Lemma _siftdown_run pos newitem h :
  h !! pos = Some newitem ->
  exists h',
    heapq._siftdown less 0 pos h = (Ok tt, h') /\
    h' ≡ₚ h /\
    (Forall ok h -> hole_ok less h pos -> above_children less h pos newitem -> is_heap less h').
Proof.
  intros Hpos. pose proof (lookup_lt_Some _ _ _ Hpos) as Hlen.
  destruct (siftdown_loop_run pos newitem h Hlen) as (pos' & h1 & Hrun & Hlt & Hperm & Hheap).
  exists (<[pos':=newitem]> h1). unfold heapq._siftdown, bind.
  rewrite (getitem_Some _ _ _ Hpos), Hrun, setitem_lt by assumption.
  split; [reflexivity |]. split.
  - rewrite Hperm. now rewrite list_insert_id.
  - intros Hok Hhole Hch. apply Hheap; auto. eapply Forall_lookup_1; eauto.
Qed.

Lemma heappush_run item h :
  exists h',
    heapq.heappush less item h = (Ok tt, h') /\
    h' ≡ₚ item :: h /\
    (is_heap less h -> Forall ok h -> ok item -> is_heap less h').
Proof.
  assert (Hlast : (h ++ [item]) !! (length (h ++ [item]) - 1) = Some item).
  { rewrite length_app. simpl. replace (length h + 1 - 1) with (length h + 0) by lia.
    now rewrite lookup_app_r, Nat.add_comm, Nat.add_sub by lia. }
  destruct (_siftdown_run _ _ _ Hlast) as (h' & Hrun & Hperm & Hheap).
  exists h'. split; [exact Hrun |]. split.
  - rewrite Hperm. symmetry. apply Permutation_cons_append.
  - intros Hh Hok Hitem.
    assert (Hn : length (h ++ [item]) - 1 = length h) by (rewrite length_app; simpl; lia).
    apply Hheap.
    + apply Forall_app. split; [assumption | now constructor].
    + rewrite Hn. split.
      * intros i x p Hi Hne Hpne Hx Hp.
        pose proof (lookup_lt_Some _ _ _ Hx) as Hl. rewrite length_app in Hl. simpl in Hl.
        pose proof (parent_lt i Hi).
        rewrite lookup_app_l in Hx, Hp by lia. eauto.
      * intros c x p _ Hc Hpc Hx _.
        pose proof (lookup_lt_Some _ _ _ Hx) as Hl. rewrite length_app in Hl. simpl in Hl.
        pose proof (parent_lt c Hc). lia.
    + rewrite Hn. intros c x Hc Hpc Hx.
      pose proof (lookup_lt_Some _ _ _ Hx) as Hl. rewrite length_app in Hl. simpl in Hl.
      pose proof (parent_lt c Hc). lia.
Qed.

Lemma take_right_run h c :
  c < length h ->
  exists b : bool,
    heapq.take_right less (length h) c h = (Ok b, h) /\
    (if b then c + 1 else c) < length h /\
    (forall l r, h !! c = Some l -> h !! (c + 1) = Some r ->
       less l r = negb b).
Proof.
  intros Hc. unfold heapq.take_right.
  destruct (decide (c + 1 < length h)) as [Hr | Hr].
  - destruct (lookup_lt_is_Some_2 h c Hc) as [l Hl].
    destruct (lookup_lt_is_Some_2 h (c + 1) Hr) as [r Hrr].
    exists (negb (less l r)). unfold bind.
    rewrite (getitem_Some _ _ _ Hl), (getitem_Some _ _ _ Hrr).
    split; [reflexivity |]. split; [destruct (negb _); lia |].
    intros l' r' Hl' Hr'. assert (l' = l) as -> by congruence.
    assert (r' = r) as -> by congruence. now rewrite negb_involutive.
  - exists false. split; [reflexivity |]. split; [assumption |].
    intros l r _ Hrr. apply lookup_lt_Some in Hrr. lia.
Qed.

Lemma siftup_loop_run n : forall pos h,
  length h - pos <= n -> pos < length h ->
  exists pos' h',
    heapq.siftup_loop less (length h) pos (2 * pos + 1) h = (Ok pos', h') /\
    length h' = length h /\ pos' < length h' /\ length h' <= 2 * pos' + 1 /\
    (forall x, <[pos':=x]> h' ≡ₚ <[pos:=x]> h) /\
    (Forall ok h -> Forall ok h') /\
    (Forall ok h -> hole_ok less h pos -> hole_ok less h' pos').
Proof.
  induction n as [| n IH]; intros pos h Hn Hpos; [lia |].
  rewrite siftup_loop_unfold.
  destruct (decide (2 * pos + 1 < length h)) as [Hc | Hc].
  - destruct (take_right_run h (2 * pos + 1) Hc) as (b & Hrun & Hc' & Hcmp).
    unfold bind at 1. rewrite Hrun. cbv zeta.
    set (c' := if b then 2 * pos + 1 + 1 else 2 * pos + 1) in *.
    assert (Hpc' : parent c' = pos)
      by (destruct b; subst c'; [apply parent_right | apply parent_left]).
    assert (Hc'pos : pos < c') by (destruct b; subst c'; lia).
    destruct (lookup_lt_is_Some_2 h c' Hc') as [child Hchild].
    unfold bind at 1. rewrite (getitem_Some _ _ _ Hchild).
    unfold bind at 1. rewrite setitem_lt by assumption.
    destruct (IH c' (<[pos:=child]> h)) as (pos' & h' & Hrun' & Hlen & Hlt & Hleaf & Hperm & Hoks & Hhole);
      [rewrite length_insert; lia | rewrite length_insert; lia |].
    rewrite length_insert in *.
    exists pos', h'. split; [exact Hrun' |].
    split; [assumption |]. split; [assumption |]. split; [assumption |]. split; [| split].
    + intros x. rewrite Hperm.
      rewrite <- (list_insert_insert_eq h pos child x).
      apply Permutation_insert_swap.
      * now apply list_lookup_insert_eq.
      * rewrite list_lookup_insert_ne by lia. exact Hchild.
    + intros Hok. apply Hoks, Forall_insert; [assumption |].
      eapply Forall_lookup_1; eauto.
    + intros Hok [Hedges Hgrand].
      assert (Hokc : ok child) by (eapply Forall_lookup_1; eauto).
      apply Hhole; [now apply Forall_insert |]. split.
      * intros i x p Hi Hne Hpne Hx Hp.
        destruct (decide (i = pos)) as [-> | Hip].
        -- rewrite list_lookup_insert_eq in Hx by assumption. injection Hx as <-.
           pose proof (parent_lt pos Hi).
           rewrite list_lookup_insert_ne in Hp by lia.
           apply (Hgrand c' child p); auto; lia.
        -- rewrite list_lookup_insert_ne in Hx by congruence.
           destruct (decide (parent i = pos)) as [Hpi | Hpi].
           ++ rewrite Hpi, list_lookup_insert_eq in Hp by assumption. injection Hp as <-.
              assert (Hokx : ok x) by (eapply Forall_lookup_1; eauto).
              destruct (parent_spec i Hi) as [Ei | Ei]; rewrite Hpi in Ei;
                destruct b; subst c'; try lia.
              ** subst i. specialize (Hcmp x child Hx Hchild). exact Hcmp.
              ** replace i with (2 * pos + 1 + 1) in Hx by lia.
                 specialize (Hcmp child x Hchild Hx). now apply le_of_less.
           ++ rewrite list_lookup_insert_ne in Hp by congruence. eauto.
      * intros c x p _ Hc0 Hpc Hx Hp.
        pose proof (parent_lt c Hc0).
        rewrite list_lookup_insert_ne in Hx by lia.
        rewrite Hpc' , list_lookup_insert_eq in Hp by assumption. injection Hp as <-.
        apply (Hedges c x child); [lia | lia | lia | assumption | now rewrite Hpc].
  - exists pos, h. split; [reflexivity |]. split; [reflexivity |].
    split; [assumption |]. split; [lia |]. auto.
Qed.

Lemma _siftup_run newitem h :
  h !! 0 = Some newitem ->
  exists h',
    heapq._siftup less 0 h = (Ok tt, h') /\
    h' ≡ₚ h /\
    (Forall ok h -> hole_ok less h 0 -> is_heap less h').
Proof.
  intros H0. pose proof (lookup_lt_Some _ _ _ H0) as Hlen.
  destruct (siftup_loop_run (length h) 0 h) as (pos & h1 & Hrun & Hl & Hlt & Hleaf & Hperm & Hoks & Hhole);
    [lia | assumption |].
  assert (Hpos : <[pos:=newitem]> h1 !! pos = Some newitem) by now apply list_lookup_insert_eq.
  destruct (_siftdown_run _ _ _ Hpos) as (h' & Hrun' & Hperm' & Hheap).
  exists h'. unfold heapq._siftup, bind, len. cbv zeta.
  rewrite (getitem_Some _ _ _ H0), Hrun, setitem_lt by assumption.
  split; [exact Hrun' |]. split.
  - rewrite Hperm', Hperm. now rewrite list_insert_id.
  - intros Hok Hh. apply Hheap.
    + apply Forall_insert; [auto | eapply Forall_lookup_1; eauto].
    + apply hole_ok_insert; auto.
    + intros c x Hc Hpc Hx. apply lookup_lt_Some in Hx. rewrite length_insert in Hx.
      destruct (parent_spec c Hc); lia.
Qed.

Lemma heappop_run h :
  h <> [] ->
  exists x h',
    heapq.heappop less h = (Ok x, h') /\
    h !! 0 = Some x /\
    x :: h' ≡ₚ h /\
    (is_heap less h -> Forall ok h -> is_heap less h').
Proof.
  intros Hne. destruct (exists_last Hne) as (h0 & lastelt & ->).
  unfold heapq.heappop. unfold bind at 1. rewrite pop_snoc.
  unfold bind at 1, len.
  destruct h0 as [| r t]; simpl length.
  - exists lastelt, []. split; [reflexivity |]. split; [reflexivity |].
    split; [reflexivity |]. intros _ _ i x p _ Hx. discriminate.
  - destruct (decide (S (length t) <> 0)); [| lia].
    assert (H0 : (lastelt :: t) !! 0 = Some lastelt) by reflexivity.
    destruct (_siftup_run _ _ H0) as (h' & Hrun & Hperm & Hheap).
    exists r, h'. unfold bind. simpl. rewrite Hrun.
    split; [reflexivity |]. split; [reflexivity |]. split.
    + rewrite Hperm, <- (Permutation_cons_append (r :: t) lastelt).
      apply perm_swap.
    + intros Hh Hok. change (Forall ok (r :: (t ++ [lastelt]))) in Hok.
      apply Forall_cons in Hok as [_ Hok]. apply Forall_app in Hok as [Hok Hlast].
      apply Forall_cons in Hlast as [Hlast _].
      apply Hheap; [constructor; assumption |]. split; [| intros; lia].
      intros i x p Hi _ Hpi Hx Hp.
      assert (0 < parent i) by lia.
      pose proof (parent_lt i Hi). pose proof (lookup_lt_Some _ _ _ Hx) as Hl. simpl in Hl.
      apply (Hh i x p Hi).
      * destruct i; [lia |]. simpl in *. rewrite lookup_app_l by lia. exact Hx.
      * destruct (parent i); [lia |]. simpl in *. rewrite lookup_app_l by lia. exact Hp.
Qed.

(** The first item of a heap is a least one. *)
Lemma is_heap_root h r :
  is_heap less h -> Forall ok h -> h !! 0 = Some r -> forall x, x ∈ h -> item_le less r x.
Proof.
  intros Hh Hok Hr x Hx. apply list_elem_of_lookup in Hx as [i Hi].
  revert x Hi. induction i as [i IH] using lt_wf_ind. intros x Hi.
  destruct (decide (i = 0)) as [-> | Hi0].
  - assert (x = r) as -> by congruence. apply le_refl. eapply Forall_lookup_1; eauto.
  - assert (Hpos : 0 < i) by lia. pose proof (parent_lt i Hpos) as Hp.
    destruct (lookup_lt_is_Some_2 h (parent i)) as [p Hpp];
      [apply lookup_lt_Some in Hi; lia |].
    assert (ok r) by (eapply Forall_lookup_1; eauto).
    assert (ok p) by (eapply Forall_lookup_1; eauto).
    assert (ok x) by (eapply Forall_lookup_1; eauto).
    apply (le_trans r p x); auto.
    + exact (IH (parent i) Hp p Hpp).
    + exact (Hh i x p Hpos Hi Hpp).
Qed.

End heapq_correct.

(** ** The order of Python floats

    On floats other than NaN the primitive comparisons are those of the
    keys, which are totally ordered. *)

Lemma SFcompare_key f g :
  f <> S754_nan -> g <> S754_nan ->
  exists c, SFcompare f g = Some c /\
            CompareSpec (sf_key f = sf_key g) (key_lt (sf_key f) (sf_key g))
                        (key_lt (sf_key g) (sf_key f)) c.
Proof.
  intros Hf Hg. unfold key_lt.
  destruct f as [sf | sf | | sf mf ef], g as [sg | sg | | sg mg eg]; try congruence;
    try destruct sf; try destruct sg; simpl;
    try (eexists; split; [reflexivity |]; constructor; simpl; solve [reflexivity | lia]).
  - destruct (Z.compare_spec ef eg) as [-> | H | H].
    + fold (Pos.compare mf mg).
      destruct (Pos.compare_spec mf mg) as [-> | H | H]; simpl;
        eexists; (split; [reflexivity |]); constructor; simpl; solve [reflexivity | lia].
    + eexists; (split; [reflexivity |]); constructor; simpl; lia.
    + eexists; (split; [reflexivity |]); constructor; simpl; lia.
  - destruct (Z.compare_spec ef eg) as [-> | H | H].
    + fold (Pos.compare mf mg).
      destruct (Pos.compare_spec mf mg) as [-> | H | H]; simpl;
        eexists; (split; [reflexivity |]); constructor; simpl; solve [reflexivity | lia].
    + eexists; (split; [reflexivity |]); constructor; simpl; lia.
    + eexists; (split; [reflexivity |]); constructor; simpl; lia.
Qed.

Lemma key_lt_irrefl a : ~ key_lt a a.
Proof. unfold key_lt. lia. Qed.

Lemma key_lt_trans a b c : key_lt a b -> key_lt b c -> key_lt a c.
Proof. unfold key_lt. lia. Qed.

Lemma key_lt_total a b : key_lt a b \/ a = b \/ key_lt b a.
Proof.
  destruct a as [[a1 a2] a3], b as [[b1 b2] b3]. unfold key_lt. simpl.
  destruct (Z.lt_total a1 b1) as [? | [-> | ?]]; [lia | | lia].
  destruct (Z.lt_total a2 b2) as [? | [-> | ?]]; [lia | | lia].
  destruct (Z.lt_total a3 b3) as [? | [-> | ?]]; [lia | | lia].
  right. left. reflexivity.
Qed.

Lemma not_nan_Prim2SF x : is_nan x = false -> Prim2SF x <> S754_nan.
Proof.
  unfold is_nan. rewrite FloatAxioms.eqb_spec. intros H E. rewrite E in H. discriminate.
Qed.

Section FloatOrder.
Variables x y : float.
Hypothesis Hx : is_nan x = false.
Hypothesis Hy : is_nan y = false.

Lemma float_compare_key :
  exists c, SFcompare (Prim2SF x) (Prim2SF y) = Some c /\
            CompareSpec (float_key x = float_key y) (key_lt (float_key x) (float_key y))
                        (key_lt (float_key y) (float_key x)) c.
Proof. apply SFcompare_key; now apply not_nan_Prim2SF. Qed.

(** [x < y] *)
Lemma ltb_key : (x <? y)%float = true <-> key_lt (float_key x) (float_key y).
Proof.
  rewrite ltb_spec. unfold SFltb.
  destruct float_compare_key as (c & -> & Hc).
  destruct Hc as [E | L | G]; split; try congruence; try discriminate.
  - rewrite E. intros H. now apply key_lt_irrefl in H.
  - intros H. exfalso. apply (key_lt_irrefl (float_key x)). eapply key_lt_trans; eauto.
Qed.

(** [not (x < y)] is [y <= x] *)
Lemma ltb_false_key : (x <? y)%float = false <-> key_le (float_key y) (float_key x).
Proof.
  split.
  - intros H. destruct (key_lt_total (float_key x) (float_key y)) as [L | [E | G]].
    + apply ltb_key in L. congruence.
    + left. congruence.
    + now right.
  - intros H. destruct (x <? y)%float eqn:E; [| reflexivity].
    apply ltb_key in E. exfalso. destruct H as [H | H].
    + rewrite H in E. now apply key_lt_irrefl in E.
    + apply (key_lt_irrefl (float_key x)). eapply key_lt_trans; eauto.
Qed.

(** [x <= y] *)
Lemma leb_key : (x <=? y)%float = true <-> key_le (float_key x) (float_key y).
Proof.
  rewrite leb_spec. unfold SFleb, key_le.
  destruct float_compare_key as (c & -> & Hc).
  destruct Hc as [E | L | G]; split; try congruence; try discriminate; auto.
  intros [E | L].
  - rewrite E in G. now apply key_lt_irrefl in G.
  - exfalso. apply (key_lt_irrefl (float_key x)). eapply key_lt_trans; eauto.
Qed.

(** [x == y] *)
Lemma eqb_key : (x =? y)%float = true <-> float_key x = float_key y.
Proof.
  rewrite FloatAxioms.eqb_spec. unfold SFeqb.
  destruct float_compare_key as (c & -> & Hc).
  destruct Hc as [E | L | G]; split; try congruence; try discriminate; intros E.
  - rewrite E in L. now apply key_lt_irrefl in L.
  - rewrite E in G. now apply key_lt_irrefl in G.
Qed.
End FloatOrder.

Lemma key_le_trans a b c : key_le a b -> key_le b c -> key_le a c.
Proof.
  intros [-> | H1] [-> | H2]; unfold key_le; auto.
  right. eapply key_lt_trans; eauto.
Qed.

Lemma key_le_total a b : key_le a b \/ key_le b a.
Proof. unfold key_le. destruct (key_lt_total a b) as [? | [? | ?]]; auto. Qed.

Lemma key_le_antisym a b : key_le a b -> key_le b a -> a = b.
Proof.
  intros [-> | H1] [E | H2]; auto.
  exfalso. apply (key_lt_irrefl a). eapply key_lt_trans; eauto.
Qed.

(** ** The frontier is a heap of candidates ordered by gain *)

Lemma gain_ok_nan g : gain_ok g = true <-> is_nan g = false.
Proof. unfold gain_ok. destruct (is_nan g); simpl; split; congruence. Qed.

(** [not (b < a)] for candidates: the gain of [a] is at least that of [b]. *)
Lemma cand_le_key a b :
  cand_ok a -> cand_ok b ->
  item_le SplitCandidate.__lt__ a b <-> key_le (float_key (gain b)) (float_key (gain a)).
Proof.
  intros Ha%gain_ok_nan Hb%gain_ok_nan. unfold item_le, SplitCandidate.__lt__.
  now apply ltb_false_key.
Qed.

Lemma cand_le_total a b :
  cand_ok a -> cand_ok b -> item_le SplitCandidate.__lt__ a b \/ item_le SplitCandidate.__lt__ b a.
Proof.
  intros Ha Hb. rewrite !cand_le_key by assumption.
  destruct (key_le_total (float_key (gain a)) (float_key (gain b))); auto.
Qed.

Lemma cand_le_trans a b c :
  cand_ok a -> cand_ok b -> cand_ok c ->
  item_le SplitCandidate.__lt__ a b -> item_le SplitCandidate.__lt__ b c -> item_le SplitCandidate.__lt__ a c.
Proof.
  intros Ha Hb Hc. rewrite !cand_le_key by assumption.
  intros H1 H2. eapply key_le_trans; eauto.
Qed.

Lemma cand_le_leb a b :
  cand_ok a -> cand_ok b ->
  item_le SplitCandidate.__lt__ a b <-> (gain b <=? gain a)%float = true.
Proof.
  intros Ha Hb. rewrite cand_le_key by assumption.
  apply gain_ok_nan in Ha, Hb. symmetry. now apply leb_key.
Qed.

Lemma frontier_ok_nil : frontier_ok [].
Proof. split; [| constructor]. intros i x p _ Hx. discriminate. Qed.

Lemma push_run a b g d h :
  exists h',
    SplitCandidateHeap.push a b g d h = (Ok tt, h') /\
    h' ≡ₚ SplitCandidate.__init__ a b g d :: h /\
    (frontier_ok h -> gain_ok g = true -> frontier_ok h').
Proof.
  unfold SplitCandidateHeap.push.
  destruct (heappush_run SplitCandidate.__lt__ cand_ok cand_le_total cand_le_trans
              (SplitCandidate.__init__ a b g d) h) as (h' & Hrun & Hperm & Hheap).
  exists h'. split; [exact Hrun |]. split; [exact Hperm |].
  intros [Hh Hok] Hg. split; [now apply Hheap |].
  rewrite Hperm. now constructor.
Qed.

Lemma pop_run h :
  h <> [] ->
  exists c h',
    SplitCandidateHeap.pop h = (Ok c, h') /\
    h !! 0 = Some c /\
    c :: h' ≡ₚ h /\
    (frontier_ok h -> frontier_ok h' /\ forall x, x ∈ h -> (gain x <=? gain c)%float = true).
Proof.
  intros Hne. unfold SplitCandidateHeap.pop.
  destruct (heappop_run SplitCandidate.__lt__ cand_ok cand_le_total cand_le_trans h Hne)
    as (c & h' & Hrun & H0 & Hperm & Hheap).
  exists c, h'. split; [exact Hrun |]. split; [exact H0 |]. split; [exact Hperm |].
  intros [Hh Hok]. split.
  - split; [now apply Hheap |]. rewrite <- Hperm in Hok. now apply Forall_cons in Hok as [_ ?].
  - intros x Hx.
    assert (cand_ok c) by (eapply Forall_lookup_1; eauto).
    assert (cand_ok x) by (rewrite Forall_forall in Hok; auto).
    apply cand_le_leb; auto.
    eapply is_heap_root; eauto using cand_le_total, cand_le_trans.
Qed.

Section batch_push.
Variables (ids : list Z) (masks : list (list Z)) (buckets : list Z)
          (gains : list float).

Let rec := record_at ids masks buckets gains.
Let body := fun (i : nat) (effective : bool) =>
  if effective
  then a <- lift (index ids i) ;;
       b <- lift (index masks i) ;;
       c <- lift (index gains i) ;;
       d <- lift (index buckets i) ;;
       SplitCandidateHeap.push a b c d
  else ret tt.

Lemma Permutation_app_nil_r_sym {A} (l : list A) : l ≡ₚ l ++ [].
Proof. now rewrite app_nil_r. Qed.

Lemma first_bad_ge flags : forall start k,
  first_bad rec start flags = Some k -> start <= k.
Proof.
  induction flags as [| f fl IH]; intros start k; simpl; [discriminate |].
  destruct (f && _); [intros [= <-]; lia |]. intros H%IH. lia.
Qed.

Lemma body_run i h :
  match rec i with
  | Some c =>
      exists h', body i true h = (Ok tt, h') /\ h' ≡ₚ c :: h /\
                 (frontier_ok h -> gain_ok (gain c) = true -> frontier_ok h')
  | None => body i true h = (Raise IndexError, h)
  end.
Proof.
  unfold rec, record_at, body, bind, lift, index.
  destruct (ids !! i) as [a |], (masks !! i) as [b |], (gains !! i) as [c |],
    (buckets !! i) as [d |]; try reflexivity.
  apply push_run.
Qed.

Lemma batch_push_loop flags : forall start h,
  exists h',
    for_enumerate start flags body h =
      (match first_bad rec start flags with None => Ok tt | Some _ => Raise IndexError end, h') /\
    h' ≡ₚ h ++ admitted_from rec start (processed rec start flags) /\
    (frontier_ok h ->
     (forall i g, flags !! i = Some true -> gains !! (start + i) = Some g -> gain_ok g = true) ->
     frontier_ok h').
Proof.
  induction flags as [| f fl IH]; intros start h.
  - exists h. split; [reflexivity |]. split; [apply Permutation_app_nil_r_sym | auto].
  - unfold processed. cbn [for_enumerate first_bad]. unfold bind at 1.
    destruct f.
    + pose proof (body_run start h) as Hb. destruct (rec start) as [c |] eqn:Hc.
      * destruct Hb as (h1 & Hrun & Hperm & Hok).
        rewrite bool_decide_true by eauto. cbn [andb negb].
        destruct (IH (S start) h1) as (h' & Hrun' & Hperm' & Hok').
        exists h'. rewrite Hrun. split; [exact Hrun' |]. split.
        -- rewrite Hperm', Hperm. unfold processed.
           destruct (first_bad rec (S start) fl) as [k |] eqn:Hk.
           ++ apply first_bad_ge in Hk.
              replace (k - start) with (S (k - S start)) by lia.
              cbn [take admitted_from]. rewrite Hc. cbn [option_list app].
              now rewrite Permutation_middle.
           ++ cbn [admitted_from]. rewrite Hc. cbn [option_list app].
              now rewrite Permutation_middle.
        -- intros Hh Hg. apply Hok'.
           ++ apply Hok; [assumption |].
              unfold rec, record_at in Hc.
              destruct (ids !! start), (masks !! start), (gains !! start) as [g |] eqn:Eg,
                (buckets !! start); try discriminate.
              injection Hc as <-. apply (Hg 0 g); [reflexivity |].
              now rewrite Nat.add_0_r.
           ++ intros i g Hi Hgi. apply (Hg (S i) g); [exact Hi |].
              now replace (start + S i) with (S start + i) by lia.
      * rewrite bool_decide_false by (intros [? ?]; discriminate). cbn [andb negb].
        exists h. rewrite Hb. split; [reflexivity |].
        rewrite Nat.sub_diag. cbn [take admitted_from].
        split; [apply Permutation_app_nil_r_sym | auto].
    + destruct (IH (S start) h) as (h' & Hrun' & Hperm' & Hok').
      exists h'. cbn [andb]. change (body start false h) with (@Ok unit tt, h).
      split; [exact Hrun' |]. split.
      * rewrite Hperm'. unfold processed.
        destruct (first_bad rec (S start) fl) as [k |] eqn:Hk; [| reflexivity].
        apply first_bad_ge in Hk.
        replace (k - start) with (S (k - S start)) by lia. reflexivity.
      * intros Hh Hg. apply Hok'; [assumption |].
        intros i g Hi Hgi. apply (Hg (S i) g); [exact Hi |].
        now replace (start + S i) with (S start + i) by lia.
Qed.

End batch_push.

(** *** What [batch_push] admits and where it stops *)

Lemma record_at_None ids masks buckets gains i :
  record_at ids masks buckets gains i = None <->
  length ids <= i \/ length masks <= i \/ length gains <= i \/ length buckets <= i.
Proof.
  unfold record_at. rewrite <- !lookup_ge_None.
  destruct (ids !! i), (masks !! i), (gains !! i), (buckets !! i);
    split; try discriminate; auto; intros [? | [? | [? | ?]]]; discriminate.
Qed.

Lemma first_bad_None rec flags : forall start,
  first_bad rec start flags = None <->
  forall i, flags !! i = Some true -> is_Some (rec (start + i)).
Proof.
  induction flags as [| f fl IH]; intros start; simpl.
  - split; [intros _ i H; discriminate | reflexivity].
  - destruct f; simpl.
    + destruct (bool_decide_reflect (is_Some (rec start))) as [Hs | Hs]; simpl.
      * rewrite IH. split.
        -- intros H [| i] Hi; [now rewrite Nat.add_0_r |].
           replace (start + S i) with (S start + i) by lia. now apply H.
        -- intros H i Hi. replace (S start + i) with (start + S i) by lia. now apply H.
      * split; [discriminate |]. intros H. exfalso. apply Hs.
        specialize (H 0 eq_refl). now rewrite Nat.add_0_r in H.
    + rewrite IH. split.
      * intros H [| i] Hi; [discriminate |].
        replace (start + S i) with (S start + i) by lia. now apply H.
      * intros H i Hi. replace (S start + i) with (start + S i) by lia. now apply H.
Qed.

Lemma first_bad_Some rec flags : forall start k,
  first_bad rec start flags = Some k ->
  start <= k /\ flags !! (k - start) = Some true /\ rec k = None /\
  forall i, i < k - start -> flags !! i = Some true -> is_Some (rec (start + i)).
Proof.
  induction flags as [| f fl IH]; intros start k; simpl; [discriminate |].
  destruct f; simpl.
  - destruct (bool_decide_reflect (is_Some (rec start))) as [Hs | Hs]; simpl.
    + intros (Hle & Hk & Hr & Hlt)%IH.
      replace (k - start) with (S (k - S start)) by lia.
      split; [lia |]. split; [exact Hk |]. split; [exact Hr |].
      intros [| i] Hi Hf; [now rewrite Nat.add_0_r |].
      replace (start + S i) with (S start + i) by lia. apply Hlt; [lia | exact Hf].
    + intros [= <-]. rewrite Nat.sub_diag. split; [lia |]. split; [reflexivity |].
      split; [| intros; lia].
      destruct (rec start); [exfalso; apply Hs; eauto | reflexivity].
  - intros (Hle & Hk & Hr & Hlt)%IH.
    replace (k - start) with (S (k - S start)) by lia.
    split; [lia |]. split; [exact Hk |]. split; [exact Hr |].
    intros [| i] Hi Hf; [discriminate |].
    replace (start + S i) with (S start + i) by lia. apply Hlt; [lia | exact Hf].
Qed.

Lemma elem_of_admitted_from rec flags x : forall start,
  x ∈ admitted_from rec start flags <->
  exists i, flags !! i = Some true /\ rec (start + i) = Some x.
Proof.
  induction flags as [| f fl IH]; intros start; simpl.
  - split; [intros H; inversion H | intros (i & H & _); discriminate].
  - rewrite elem_of_app, IH. split.
    + intros [H | (i & Hi & Hr)].
      * destruct f; [| inversion H]. destruct (rec start) as [c |] eqn:E; [| inversion H].
        apply list_elem_of_singleton in H as ->. exists 0. now rewrite Nat.add_0_r.
      * exists (S i). split; [exact Hi |]. now replace (start + S i) with (S start + i) by lia.
    + intros ([| i] & Hi & Hr).
      * left. injection Hi as ->. rewrite Nat.add_0_r in Hr. rewrite Hr. simpl.
        now apply list_elem_of_singleton.
      * right. exists i. split; [exact Hi |].
        now replace (S start + i) with (start + S i) by lia.
Qed.

Lemma call_ok_batch gains flags :
  forallb (fun gf : float * bool => negb gf.2 || gain_ok gf.1) (zip gains flags) = true ->
  forall i g, flags !! i = Some true -> gains !! (0 + i) = Some g -> gain_ok g = true.
Proof.
  intros H i g Hf Hg. rewrite forallb_forall in H.
  specialize (H (g, true)). simpl in H. apply H.
  apply list_elem_of_In, list_elem_of_lookup. exists i.
  apply lookup_zip_with_Some. exists g, true. auto.
Qed.

Lemma batch_push_run ids masks buckets gains flags h :
  exists h',
    SplitCandidateHeap.batch_push ids masks buckets gains flags h =
      (match first_bad (record_at ids masks buckets gains) 0 flags with
       | None => Ok tt
       | Some _ => Raise IndexError
       end, h') /\
    h' ≡ₚ h ++ admitted ids masks buckets gains (processed (record_at ids masks buckets gains) 0 flags) /\
    (frontier_ok h -> call_ok (BatchPush ids masks buckets gains flags) = true ->
     frontier_ok h').
Proof.
  destruct (batch_push_loop ids masks buckets gains flags 0 h) as (h' & Hrun & Hperm & Hok).
  exists h'. split; [exact Hrun |]. split; [exact Hperm |].
  intros Hh Hc. apply Hok; [assumption |]. now apply call_ok_batch.
Qed.

(** *** Calls keep the frontier a heap *)

Lemma extract_all_nodes_run h :
  SplitCandidateHeap.extract_all_nodes h =
  (Ok (map node_index h, map (fun c => sample_selects (info c)) h), []).
Proof. reflexivity. Qed.

Lemma exec_ok c h :
  frontier_ok h -> call_ok c = true -> frontier_ok (exec c h).2.
Proof.
  intros Hh Hc. destruct c as [a b g d | ids masks buckets gains flags | | | |]; simpl.
  - destruct (push_run a b g d h) as (h' & Hrun & _ & Hok).
    unfold bind. rewrite Hrun. simpl. auto.
  - destruct (batch_push_run ids masks buckets gains flags h) as (h' & Hrun & _ & Hok).
    unfold bind. rewrite Hrun. destruct (first_bad _ _ _); simpl; auto.
  - destruct h as [| x t]; [exact Hh |].
    destruct (pop_run (x :: t)) as (c & h' & Hrun & _ & _ & Hok); [discriminate |].
    unfold bind. rewrite Hrun. simpl. now apply Hok.
  - destruct h as [| x t]; [exact Hh |].
    destruct (pop_run (x :: t)) as (c & h' & Hrun & _ & _ & Hok); [discriminate |].
    unfold SplitCandidateHeap.extract_best_split_info, bind. rewrite Hrun. simpl. now apply Hok.
  - apply frontier_ok_nil.
  - apply frontier_ok_nil.
Qed.

Lemma run_cons c cs h :
  run (c :: cs) h =
  ((match (exec c h).1 with Ok o => o | Raise _ => [] end) ++ (run cs (exec c h).2).1,
   (run cs (exec c h).2).2).
Proof. simpl. destruct (exec c h) as [r h']. simpl. now destruct (run cs h'). Qed.

Lemma run_ok cs : forall h,
  frontier_ok h -> forallb call_ok cs = true -> frontier_ok (run cs h).2.
Proof.
  induction cs as [| c cs IH]; intros h Hh Hcs; [exact Hh |].
  simpl in Hcs. apply andb_prop in Hcs as [Hc Hcs].
  rewrite run_cons. simpl. apply IH; [| exact Hcs]. now apply exec_ok.
Qed.

(** *** Draining by repeated [pop] *)

Lemma pop_n_run n : forall h,
  n <= length h ->
  exists l h',
    pop_n n h = (Ok l, h') /\ length l = n /\ l ++ h' ≡ₚ h /\
    (frontier_ok h ->
     frontier_ok h' /\
     StronglySorted (fun a b => ge_float (gain a) (gain b)) l /\
     forall x y, x ∈ l -> y ∈ h' -> ge_float (gain x) (gain y)).
Proof.
  induction n as [| n IH]; intros h Hn.
  - exists [], h. split; [reflexivity |]. split; [reflexivity |]. split; [reflexivity |].
    intros Hh. split; [exact Hh |]. split; [constructor |]. intros x y Hx. inversion Hx.
  - destruct h as [| x0 t]; [simpl in Hn; lia |].
    destruct (pop_run (x0 :: t)) as (c & h1 & Hrun & _ & Hperm & Hok); [discriminate |].
    assert (Hlen : length h1 = length t).
    { apply Permutation_length in Hperm. simpl in Hperm. lia. }
    destruct (IH h1) as (l & h' & Hrun' & Hl & Hperm' & Hok'); [simpl in Hn; lia |].
    exists (c :: l), h'. cbn [pop_n]. unfold bind at 1. rewrite Hrun.
    unfold bind at 1. rewrite Hrun'.
    split; [reflexivity |]. split; [simpl; lia |]. split.
    + simpl. now rewrite Hperm', Hperm.
    + intros Hh. destruct (Hok Hh) as [Hh1 Hmax].
      destruct (Hok' Hh1) as (Hh' & Hsorted & Hbelow).
      assert (Hc : forall y, y ∈ l ++ h' -> ge_float (gain c) (gain y)).
      { intros y Hy. apply Hmax. rewrite <- Hperm. right. now rewrite <- Hperm'. }
      split; [exact Hh' |]. split.
      * constructor; [exact Hsorted |]. apply Forall_forall. intros y Hy.
        apply Hc, elem_of_app. now left.
      * intros x y Hx Hy. apply elem_of_cons in Hx as [-> | Hx]; [| now apply Hbelow].
        apply Hc, elem_of_app. now right.
Qed.

Lemma pop_until_empty_run h :
  exists l,
    pop_until_empty h = (Ok l, []) /\ l ≡ₚ h /\
    (frontier_ok h -> StronglySorted (fun a b => ge_float (gain a) (gain b)) l).
Proof.
  destruct (pop_n_run (length h) h) as (l & h' & Hrun & Hl & Hperm & Hok); [lia |].
  assert (h' = []) as ->.
  { apply Permutation_length in Hperm. rewrite length_app in Hperm.
    destruct h'; [reflexivity | simpl in Hperm; lia]. }
  exists l. split; [exact Hrun |]. rewrite app_nil_r in Hperm. split; [exact Hperm |].
  intros Hh. now apply Hok.
Qed.

Lemma StronglySorted_lookup {A} (R : relation A) l :
  StronglySorted R l ->
  forall i j a b, i < j -> l !! i = Some a -> l !! j = Some b -> R a b.
Proof.
  induction 1 as [| x l Hs IH Hx]; intros i j a b Hij Ha Hb; [discriminate |].
  destruct j as [| j]; [lia |]. simpl in Hb. destruct i as [| i].
  - injection Ha as <-. rewrite Forall_forall in Hx. apply Hx.
    apply list_elem_of_lookup. eauto.
  - simpl in Ha. apply (IH i j); auto. lia.
Qed.

Lemma sorted_non_increasing l :
  StronglySorted (fun a b => ge_float (gain a) (gain b)) l ->
  non_increasing (map gain l).
Proof.
  intros Hs i j a b Hij Ha Hb.
  apply list_lookup_fmap_Some in Ha as (ca & -> & Ha).
  apply list_lookup_fmap_Some in Hb as (cb & -> & Hb).
  exact (StronglySorted_lookup _ _ Hs i j ca cb Hij Ha Hb).
Qed.

(** *** What callers are handed *)

Lemma zip_fmap_pair {A B C} (f : A -> B) (g : A -> C) (l : list A) :
  zip (map f l) (map g l) = map (fun x => (f x, g x)) l.
Proof. induction l as [| x l IH]; simpl; [reflexivity | now rewrite IH]. Qed.

(** Calls that insert nothing hand back each stored record at most once. *)
Lemma run_read_outputs cs : forall h,
  forallb is_read cs = true -> (run cs h).1 ⊆+ map node_pair h.
Proof.
  induction cs as [| c cs IH]; intros h Hcs; [apply submseteq_nil_l |].
  simpl in Hcs. apply andb_prop in Hcs as [Hc Hcs]. rewrite run_cons.
  cbn [fst]. destruct c as [| | | | |]; try discriminate; cbn [exec].
  - destruct h as [| x0 t]; [apply (IH [] Hcs) |].
    destruct (pop_run (x0 :: t)) as (c & h' & Hrun & _ & Hperm & _); [discriminate |].
    unfold bind. rewrite Hrun. cbn [fst snd ret]. rewrite <- Hperm.
    apply (submseteq_app [node_pair c] [node_pair c]); [reflexivity | now apply IH].
  - destruct h as [| x0 t]; [apply (IH [] Hcs) |].
    destruct (pop_run (x0 :: t)) as (c & h' & Hrun & _ & Hperm & _); [discriminate |].
    unfold SplitCandidateHeap.extract_best_split_info, bind. rewrite Hrun.
    cbn [fst snd ret]. rewrite <- Hperm.
    apply (submseteq_app [node_pair c] [node_pair c]); [reflexivity | now apply IH].
  - unfold bind. rewrite extract_all_nodes_run. cbn [fst snd ret].
    rewrite zip_fmap_pair. specialize (IH [] Hcs). apply submseteq_nil_r in IH.
    rewrite IH, app_nil_r. reflexivity.
  - unfold bind. cbn [fst snd ret SplitCandidateHeap.reset put].
    specialize (IH [] Hcs). apply submseteq_nil_r in IH. rewrite IH.
    apply submseteq_nil_l.
Qed.

(** *** Sorted drains of the same records *)

Lemma leb_not_nan a b : (a <=? b)%float = true -> is_nan a = false /\ is_nan b = false.
Proof.
  rewrite leb_spec. unfold SFleb. intros H.
  assert (Ha : Prim2SF a <> S754_nan) by (intros E; rewrite E in H; discriminate).
  assert (Hb : Prim2SF b <> S754_nan)
    by (intros E; rewrite E in H; destruct (Prim2SF a); discriminate).
  unfold is_nan. rewrite !FloatAxioms.eqb_spec. unfold SFeqb.
  destruct (SFcompare_key _ _ Ha Ha) as (c & -> & Hc).
  destruct (SFcompare_key _ _ Hb Hb) as (c' & -> & Hc').
  destruct Hc as [_ | L | L]; try (now apply key_lt_irrefl in L).
  destruct Hc' as [_ | L | L]; try (now apply key_lt_irrefl in L).
  auto.
Qed.

Lemma ge_float_key a b : ge_float a b -> key_le (float_key b) (float_key a).
Proof.
  unfold ge_float. intros H. destruct (leb_not_nan _ _ H) as [Hb Ha].
  now apply leb_key.
Qed.

Lemma sorted_perm_keys l1 l2 :
  StronglySorted (fun a b => ge_float (gain a) (gain b)) l1 ->
  StronglySorted (fun a b => ge_float (gain a) (gain b)) l2 ->
  l1 ≡ₚ l2 ->
  map (fun c => float_key (gain c)) l1 = map (fun c => float_key (gain c)) l2.
Proof.
  intros H1 H2 Hp.
  assert (AntiSymm eq (flip key_le)) by (intros x y Hxy Hyx; now apply key_le_antisym).
  apply (StronglySorted_unique (flip key_le)).
  - eapply StronglySorted_fmap; [| exact H1]. intros x y. apply ge_float_key.
  - eapply StronglySorted_fmap; [| exact H2]. intros x y. apply ge_float_key.
  - now apply fmap_Permutation.
Qed.

Lemma keys_eq_gains l1 : forall l2,
  Forall cand_ok l1 -> Forall cand_ok l2 ->
  map (fun c => float_key (gain c)) l1 = map (fun c => float_key (gain c)) l2 ->
  Forall2 (fun a b => (gain a =? gain b)%float = true) l1 l2.
Proof.
  induction l1 as [| a l1 IH]; intros [| b l2] H1 H2 E; try discriminate; [constructor |].
  injection E as Eab E. apply Forall_cons in H1 as [Ha H1]. apply Forall_cons in H2 as [Hb H2].
  constructor; [| now apply IH].
  apply gain_ok_nan in Ha, Hb. now apply eqb_key.
Qed.

Lemma eqb_not_nan a b : (a =? b)%float = true -> is_nan a = false /\ is_nan b = false.
Proof.
  rewrite FloatAxioms.eqb_spec. unfold SFeqb. intros H.
  assert (Ha : Prim2SF a <> S754_nan) by (intros E; rewrite E in H; discriminate).
  assert (Hb : Prim2SF b <> S754_nan)
    by (intros E; rewrite E in H; destruct (Prim2SF a); discriminate).
  unfold is_nan. rewrite !FloatAxioms.eqb_spec. unfold SFeqb.
  destruct (SFcompare_key _ _ Ha Ha) as (c & -> & Hc).
  destruct (SFcompare_key _ _ Hb Hb) as (c' & -> & Hc').
  destruct Hc as [_ | L | L]; try (now apply key_lt_irrefl in L).
  destruct Hc' as [_ | L | L]; try (now apply key_lt_irrefl in L).
  auto.
Qed.

Lemma eqb_sym_true a b : (a =? b)%float = true -> (b =? a)%float = true.
Proof.
  intros H. destruct (eqb_not_nan _ _ H) as [Ha Hb].
  apply eqb_key; auto. symmetry. now apply eqb_key.
Qed.

Lemma distinct_gains_inj l :
  distinct_gains l = true ->
  forall x y, x ∈ l -> y ∈ l -> (gain x =? gain y)%float = true -> x = y.
Proof.
  induction l as [| c l IH]; intros Hd x y Hx Hy E; [inversion Hx |].
  simpl in Hd. apply andb_prop in Hd as [Hc Hd]. rewrite forallb_forall in Hc.
  apply elem_of_cons in Hx as [-> | Hx], Hy as [-> | Hy]; auto.
  - apply list_elem_of_In, Hc in Hy. rewrite E in Hy. discriminate.
  - apply list_elem_of_In, Hc in Hx. apply eqb_sym_true in E. rewrite E in Hx. discriminate.
Qed.

(** * Properties of the specification *)

(** *** C1 *)

(** C1: after every sequence of calls whose pushed gains can be ranked (no NaN:
    a candidate's gain exceeds the pruning threshold), [pop()] on a non-empty
    frontier removes and returns a record whose gain is at least the gain of
    every stored record, and popping until empty yields all stored records in
    an order of non-increasing gains. *)
Theorem C1_pop_returns_max_gain (cs : list call) :
  forallb call_ok cs = true ->
  let h := (run cs SplitCandidateHeap.__init__).2 in
  (h <> [] ->
   exists c h',
     SplitCandidateHeap.pop h = (Ok c, h') /\ c :: h' ≡ₚ h /\
     forall x, x ∈ h -> (gain x <=? gain c)%float = true) /\
  (exists l,
     pop_until_empty h = (Ok l, []) /\ l ≡ₚ h /\ non_increasing (map gain l)).
Proof.
  intros Hcs h.
  assert (Hh : frontier_ok h) by (apply run_ok; [apply frontier_ok_nil | exact Hcs]).
  split.
  - intros Hne. destruct (pop_run h Hne) as (c & h' & Hrun & _ & Hperm & Hok).
    exists c, h'. split; [exact Hrun |]. split; [exact Hperm |]. now apply Hok.
  - destruct (pop_until_empty_run h) as (l & Hrun & Hperm & Hsorted).
    exists l. split; [exact Hrun |]. split; [exact Hperm |].
    now apply sorted_non_increasing, Hsorted.
Qed.

Lemma C1_pop_returns_max_gain_witness :
  forallb call_ok example_pushes = true /\
  let h := (run example_pushes SplitCandidateHeap.__init__).2 in
  (h <> [] ->
   exists c h',
     SplitCandidateHeap.pop h = (Ok c, h') /\ c :: h' ≡ₚ h /\
     forall x, x ∈ h -> (gain x <=? gain c)%float = true) /\
  (exists l,
     pop_until_empty h = (Ok l, []) /\ l ≡ₚ h /\ non_increasing (map gain l)).
Proof.
  split; [reflexivity |].
  apply (C1_pop_returns_max_gain example_pushes). reflexivity.
Defined.

(** The specification's example: the two records of gain 1.5 are popped
    first, the record of gain 0.8 remains. *)
Example example_pushes_pops :
  (pop_n 2 (run example_pushes []).2).1 = Ok
    [SplitCandidate.__init__ 2 [0; 1; 0]%Z 1.5%float 1;
     SplitCandidate.__init__ 3 [1; 1; 0]%Z 1.5%float 2] /\
  (pop_n 2 (run example_pushes []).2).2 =
    [SplitCandidate.__init__ 1 [1; 0; 1]%Z 0.8%float 3].
Proof. split; vm_compute; reflexivity. Qed.

(** Why C1 asks for rankable gains: NaN compares false with everything, and
    after pushing the gains 1.0, NaN, 0.5, 5.0 the record popped first has
    gain 1.0 although a record of gain 5.0 is stored. *)
Remark nan_gain_is_not_ranked :
  let cs := [Push 1 [] 1%float 0; Push 2 [] nan 0; Push 3 [] 0.5%float 0;
             Push 4 [] 5%float 0] in
  (SplitCandidateHeap.pop (run cs []).2).1 = Ok (SplitCandidate.__init__ 1 [] 1%float 0) /\
  SplitCandidate.__init__ 4 [] 5%float 0 ∈ (run cs []).2.
Proof.
  split; [vm_compute; reflexivity |].
  vm_compute. apply list_elem_of_In. simpl. auto.
Qed.

(** *** C2 *)

Lemma equal_lengths_no_bad ids masks buckets gains flags :
  length ids = length flags -> length masks = length flags ->
  length buckets = length flags -> length gains = length flags ->
  first_bad (record_at ids masks buckets gains) 0 flags = None.
Proof.
  intros H1 H2 H3 H4. apply first_bad_None. intros i Hi. simpl.
  apply lookup_lt_Some in Hi.
  destruct (record_at ids masks buckets gains i) eqn:E; [eauto |].
  apply record_at_None in E. lia.
Qed.

(** C2: when the five arrays have the same length, [batch_push] succeeds and
    the frontier then holds what it held before plus exactly the records at the
    indices whose flag is true; whatever later [pop], [extract_best_split_info]
    and [extract_all_nodes] calls hand back is a record stored before the call
    or one whose flag was true, so a record whose flag is false is never handed
    back. *)
Theorem C2_batch_push_admits_flagged
    (ids : list Z) (masks : list (list Z)) (buckets : list Z)
    (gains : list float) (flags : list bool) (h : SplitCandidateHeap.t) :
  length ids = length flags -> length masks = length flags ->
  length buckets = length flags -> length gains = length flags ->
  exists h',
    SplitCandidateHeap.batch_push ids masks buckets gains flags h = (Ok tt, h') /\
    h' ≡ₚ h ++ admitted ids masks buckets gains flags /\
    (forall x, x ∈ admitted ids masks buckets gains flags <->
       exists i, flags !! i = Some true /\ record_at ids masks buckets gains i = Some x) /\
    (forall cs, forallb is_read cs = true ->
       (run cs h').1 ⊆+ map node_pair (h ++ admitted ids masks buckets gains flags)).
Proof.
  intros H1 H2 H3 H4.
  destruct (batch_push_run ids masks buckets gains flags h) as (h' & Hrun & Hperm & _).
  unfold processed in Hperm.
  rewrite (equal_lengths_no_bad _ _ _ _ _ H1 H2 H3 H4) in Hrun, Hperm.
  exists h'. split; [exact Hrun |]. split; [exact Hperm |]. split.
  - intros x. unfold admitted. now rewrite elem_of_admitted_from.
  - intros cs Hcs. rewrite <- Hperm. now apply run_read_outputs.
Qed.

Lemma C2_batch_push_admits_flagged_witness :
  exists h',
    SplitCandidateHeap.batch_push [10; 11]%Z [[1; 0]; [0; 1]]%Z [0; 1]%Z
      [2.0; 0.1]%float [true; false] [] = (Ok tt, h') /\
    h' ≡ₚ [] ++ admitted [10; 11]%Z [[1; 0]; [0; 1]]%Z [0; 1]%Z [2.0; 0.1]%float [true; false] /\
    (forall x, x ∈ admitted [10; 11]%Z [[1; 0]; [0; 1]]%Z [0; 1]%Z [2.0; 0.1]%float [true; false] <->
       exists i, [true; false] !! i = Some true /\
                 record_at [10; 11]%Z [[1; 0]; [0; 1]]%Z [0; 1]%Z [2.0; 0.1]%float i = Some x) /\
    (forall cs, forallb is_read cs = true ->
       (run cs h').1 ⊆+
       map node_pair ([] ++ admitted [10; 11]%Z [[1; 0]; [0; 1]]%Z [0; 1]%Z [2.0; 0.1]%float [true; false])).
Proof.
  apply (C2_batch_push_admits_flagged [10; 11]%Z [[1; 0]; [0; 1]]%Z [0; 1]%Z
           [2.0; 0.1]%float [true; false] []); reflexivity.
Defined.

(** The specification's example: only node 10 is in the frontier. *)
Example example_batch_push :
  SplitCandidateHeap.batch_push [10; 11]%Z [[1; 0]; [0; 1]]%Z [0; 1]%Z
    [2.0; 0.1]%float [true; false] []
  = (Ok tt, [SplitCandidate.__init__ 10 [1; 0]%Z 2.0%float 0]).
Proof. vm_compute. reflexivity. Qed.

(** *** C3 *)

(** C3 as stated fails: with two entries in each of the four data arrays and
    a single flag the lengths differ, and [batch_push] returns normally. *)
Lemma C3_counterexample :
  length [true] <> length [10; 11]%Z /\
  SplitCandidateHeap.batch_push [10; 11]%Z [[1; 0]; [0; 1]]%Z [0; 1]%Z
    [2.0; 0.1]%float [true] []
  = (Ok tt, [SplitCandidate.__init__ 10 [1; 0]%Z 2.0%float 0]).
Proof. split; [discriminate | vm_compute; reflexivity]. Qed.

(** C3, amended: [batch_push] checks no lengths.  It fails, with Python's
    [IndexError], exactly when some flag is true at an index that lies beyond
    the end of one of the four other arrays; otherwise it returns normally,
    whatever the lengths are. *)
Theorem C3_batch_push_fails_iff
    (ids : list Z) (masks : list (list Z)) (buckets : list Z)
    (gains : list float) (flags : list bool) (h : SplitCandidateHeap.t) :
  exists r h',
    SplitCandidateHeap.batch_push ids masks buckets gains flags h = (r, h') /\
    (r = Ok tt \/ r = Raise IndexError) /\
    (r = Raise IndexError <->
     exists i, flags !! i = Some true /\
               (length ids <= i \/ length masks <= i \/
                length gains <= i \/ length buckets <= i)).
Proof.
  destruct (batch_push_run ids masks buckets gains flags h) as (h' & Hrun & _ & _).
  destruct (first_bad (record_at ids masks buckets gains) 0 flags) as [k |] eqn:Hk.
  - exists (Raise IndexError), h'. split; [exact Hrun |]. split; [now right |].
    split; [intros _ | reflexivity].
    apply first_bad_Some in Hk as (_ & Hf & Hr & _). rewrite Nat.sub_0_r in Hf.
    exists k. split; [exact Hf |]. now apply record_at_None.
  - exists (Ok tt), h'. split; [exact Hrun |]. split; [now left |].
    split; [discriminate |]. intros (i & Hf & Hlen). exfalso.
    rewrite first_bad_None in Hk. destruct (Hk i Hf) as [c Hc].
    apply record_at_None in Hlen. simpl in Hc. congruence.
Qed.

(** *** C4 *)

(** C4 as stated fails: with one entry in each data array and two true flags,
    [batch_push] pushes node 10, then fails at index 1, and the frontier keeps
    node 10. *)
Lemma C4_counterexample :
  SplitCandidateHeap.batch_push [10]%Z [[1; 0]]%Z [0]%Z [2.0]%float [true; true] []
  = (Raise IndexError, [SplitCandidate.__init__ 10 [1; 0]%Z 2.0%float 0]) /\
  ~ ([SplitCandidate.__init__ 10 [1; 0]%Z 2.0%float 0] ≡ₚ []).
Proof.
  split; [vm_compute; reflexivity |].
  intros H. apply Permutation_length in H. discriminate.
Qed.

(** C4, amended: [push], [extract_all_nodes] and [reset] never fail.  A
    failed [pop] or [extract_best_split_info] happens on the empty frontier
    only and leaves the frontier as it was.  A failed [batch_push] is not
    rolled back: it stops at the first index [k] whose flag is true and which
    one of the other arrays does not reach, and the frontier then holds what it
    held before plus the records admitted at the indices below [k]. *)
Theorem C4_failed_call_state (c : call) (h : SplitCandidateHeap.t) :
  (forall e h', exec c h = (Raise e, h') ->
   match c with
   | BatchPush ids masks buckets gains flags =>
       exists k,
         flags !! k = Some true /\
         (length ids <= k \/ length masks <= k \/ length gains <= k \/ length buckets <= k) /\
         (forall i, i < k -> flags !! i = Some true ->
            is_Some (record_at ids masks buckets gains i)) /\
         h' ≡ₚ h ++ admitted ids masks buckets gains (take k flags)
   | Pop | ExtractBestSplitInfo => h' = h /\ h = []
   | Push _ _ _ _ | ExtractAllNodes | Reset => False
   end) /\
  (forall a b g d, exists h', SplitCandidateHeap.push a b g d h = (Ok tt, h')) /\
  (exists ids masks, SplitCandidateHeap.extract_all_nodes h = (Ok (ids, masks), [])) /\
  SplitCandidateHeap.reset h = (Ok tt, []).
Proof.
  split; [| split; [| split]].
  - intros e h' Hrun.
    destruct c as [a b g d | ids masks buckets gains flags | | | |]; simpl in Hrun.
    + destruct (push_run a b g d h) as (h1 & Hp & _). unfold bind in Hrun.
      rewrite Hp in Hrun. discriminate.
    + destruct (batch_push_run ids masks buckets gains flags h) as (h1 & Hb & Hperm & _).
      unfold bind in Hrun. rewrite Hb in Hrun. unfold processed in Hperm.
      destruct (first_bad (record_at ids masks buckets gains) 0 flags) as [k |] eqn:Hk;
        [| discriminate].
      injection Hrun as <- <-.
      apply first_bad_Some in Hk as (_ & Hf & Hr & Hlt). rewrite Nat.sub_0_r in *.
      exists k. split; [exact Hf |]. split; [now apply record_at_None |].
      split; [exact Hlt |]. exact Hperm.
    + destruct h as [| x0 t]; [now injection Hrun as <- <- |].
      destruct (pop_run (x0 :: t)) as (c & h1 & Hp & _); [discriminate |].
      unfold bind in Hrun. rewrite Hp in Hrun. discriminate.
    + destruct h as [| x0 t]; [now injection Hrun as <- <- |].
      destruct (pop_run (x0 :: t)) as (c & h1 & Hp & _); [discriminate |].
      unfold SplitCandidateHeap.extract_best_split_info, bind in Hrun.
      rewrite Hp in Hrun. discriminate.
    + discriminate.
    + discriminate.
  - intros a b g d. destruct (push_run a b g d h) as (h' & Hp & _). eauto.
  - eexists _, _. apply extract_all_nodes_run.
  - reflexivity.
Qed.

Lemma C4_failed_call_state_witness :
  exists k,
    [true; true] !! k = Some true /\
    (length [10]%Z <= k \/ length [[1; 0]]%Z <= k \/
     length [2.0]%float <= k \/ length [0]%Z <= k) /\
    (forall i, i < k -> [true; true] !! i = Some true ->
       is_Some (record_at [10]%Z [[1; 0]]%Z [0]%Z [2.0]%float i)) /\
    [SplitCandidate.__init__ 10 [1; 0]%Z 2.0%float 0] ≡ₚ
      [] ++ admitted [10]%Z [[1; 0]]%Z [0]%Z [2.0]%float (take k [true; true]).
Proof.
  apply (proj1 (C4_failed_call_state
           (BatchPush [10]%Z [[1; 0]]%Z [0]%Z [2.0]%float [true; true]) []) IndexError).
  vm_compute. reflexivity.
Defined.

(** *** C5 *)

(** C5: [pop()] and [extract_best_split_info()] fail exactly on the frontier
    without records, with Python's [IndexError] ("pop from empty list", the
    specification's EmptyFrontier) and leaving it empty; this is so for the
    freshly constructed frontier and for a frontier that was just drained. *)
Theorem C5_pop_empty_fails :
  SplitCandidateHeap.pop SplitCandidateHeap.__init__ = (Raise IndexError, []) /\
  SplitCandidateHeap.extract_best_split_info SplitCandidateHeap.__init__
    = (Raise IndexError, []) /\
  (forall h, (SplitCandidateHeap.pop h).1 = Raise IndexError <-> h = []) /\
  (forall h, (SplitCandidateHeap.extract_best_split_info h).1 = Raise IndexError <-> h = []) /\
  (forall h, (SplitCandidateHeap.extract_all_nodes ;; SplitCandidateHeap.pop) h
             = (Raise IndexError, [])).
Proof.
  split; [reflexivity |]. split; [reflexivity |]. split; [| split].
  - intros h. split; [| intros ->; reflexivity].
    destruct h as [| x0 t]; [reflexivity |]. intros H.
    destruct (pop_run (x0 :: t)) as (c & h1 & Hp & _); [discriminate |].
    rewrite Hp in H. discriminate.
  - intros h. split; [| intros ->; reflexivity].
    destruct h as [| x0 t]; [reflexivity |]. intros H.
    destruct (pop_run (x0 :: t)) as (c & h1 & Hp & _); [discriminate |].
    unfold SplitCandidateHeap.extract_best_split_info, bind in H.
    rewrite Hp in H. discriminate.
  - intros h. reflexivity.
Qed.

(** *** C6 *)

(** C6: as long as [set_devices] has not bound the frontier ([self.heap] is
    [None], as [__init__] leaves it), each of [push], [batch_push],
    [extract_best_split_info], [extract_all_nodes] and [reset] of the manager
    fails, with Python's [AttributeError] (the specification's
    NotInitialized), and leaves the manager as it was. *)
Theorem C6_manager_unbound_fails (m : SplitCandidateManager.t) :
  SplitCandidateManager.heap m = None ->
  (forall a b g d, SplitCandidateManager.push a b g d m = (Raise AttributeError, m)) /\
  (forall ids masks buckets gains flags,
     SplitCandidateManager.batch_push ids masks buckets gains flags m
     = (Raise AttributeError, m)) /\
  SplitCandidateManager.extract_best_split_info m = (Raise AttributeError, m) /\
  SplitCandidateManager.extract_all_nodes m = (Raise AttributeError, m) /\
  SplitCandidateManager.reset m = (Raise AttributeError, m).
Proof.
  intros Hm.
  unfold SplitCandidateManager.push, SplitCandidateManager.batch_push,
    SplitCandidateManager.extract_best_split_info,
    SplitCandidateManager.extract_all_nodes, SplitCandidateManager.reset,
    SplitCandidateManager.on_heap.
  rewrite Hm. repeat split.
Qed.

Lemma C6_manager_unbound_fails_witness :
  (forall a b g d,
     SplitCandidateManager.push a b g d SplitCandidateManager.__init__
     = (Raise AttributeError, SplitCandidateManager.__init__)) /\
  (forall ids masks buckets gains flags,
     SplitCandidateManager.batch_push ids masks buckets gains flags
       SplitCandidateManager.__init__
     = (Raise AttributeError, SplitCandidateManager.__init__)) /\
  SplitCandidateManager.extract_best_split_info SplitCandidateManager.__init__
    = (Raise AttributeError, SplitCandidateManager.__init__) /\
  SplitCandidateManager.extract_all_nodes SplitCandidateManager.__init__
    = (Raise AttributeError, SplitCandidateManager.__init__) /\
  SplitCandidateManager.reset SplitCandidateManager.__init__
    = (Raise AttributeError, SplitCandidateManager.__init__).
Proof. apply (C6_manager_unbound_fails SplitCandidateManager.__init__). reflexivity. Defined.

(** Once bound, the manager's calls are the frontier's. *)
Example manager_after_set_devices :
  (SplitCandidateManager.set_devices {| devices_label_holder := 0 |} ;;
   SplitCandidateManager.push 1 [1; 0; 1]%Z 0.8%float 3 ;;
   SplitCandidateManager.extract_best_split_info) SplitCandidateManager.__init__
  = (Ok (1%Z, [1; 0; 1]%Z, 3%Z),
     {| SplitCandidateManager.params := None;
        SplitCandidateManager.label_holder := Some 0;
        SplitCandidateManager.heap := Some [] |}).
Proof. vm_compute. reflexivity. Qed.

(** *** C7 *)

Lemma push_record_init c :
  SplitCandidate.__init__ (node_index c) (sample_selects (info c)) (gain c)
    (split_bucket (info c)) = c.
Proof. destruct c as [n [s g b]]. reflexivity. Qed.

Lemma run_pushes recs : forall h,
  (run (map push_record recs) h).1 = [] /\ (run (map push_record recs) h).2 ≡ₚ recs ++ h.
Proof.
  induction recs as [| c recs IH]; intros h; [split; reflexivity |].
  cbn [map]. rewrite run_cons. cbn [fst snd exec push_record].
  destruct (push_run (node_index c) (sample_selects (info c)) (gain c)
              (split_bucket (info c)) h) as (h1 & Hrun & Hperm & _).
  unfold bind. rewrite Hrun. cbn [fst snd ret]. destruct (IH h1) as [-> Hp].
  split; [reflexivity |]. rewrite Hp, Hperm, push_record_init.
  symmetry. apply Permutation_middle.
Qed.

(** C7: [extract_all_nodes()] succeeds on every frontier, hands back the node
    id and the sample mask of every stored record, each once and in the order
    of the backing list, and leaves the frontier empty; after pushing the
    records [recs] on an empty frontier the pairs handed back are those of
    [recs] up to order; a second [extract_all_nodes()] right after the first
    hands back two empty lists. *)
Theorem C7_extract_all_nodes_drains (h : SplitCandidateHeap.t) :
  (exists ids masks,
     SplitCandidateHeap.extract_all_nodes h = (Ok (ids, masks), []) /\
     zip ids masks = map node_pair h) /\
  (forall recs : list SplitCandidate,
     exists ids masks,
       SplitCandidateHeap.extract_all_nodes
         (run (map push_record recs) SplitCandidateHeap.__init__).2
       = (Ok (ids, masks), []) /\
       zip ids masks ≡ₚ map node_pair recs) /\
  (SplitCandidateHeap.extract_all_nodes ;; SplitCandidateHeap.extract_all_nodes) h
  = (Ok ([], []), []).
Proof.
  split; [| split].
  - eexists _, _. split; [apply extract_all_nodes_run |]. apply zip_fmap_pair.
  - intros recs. eexists _, _. split; [apply extract_all_nodes_run |].
    rewrite zip_fmap_pair. apply fmap_Permutation.
    destruct (run_pushes recs SplitCandidateHeap.__init__) as [_ Hp].
    now rewrite app_nil_r in Hp.
  - reflexivity.
Qed.

(** *** C8 *)

(** C8: [reset()] returns [None] and leaves the frontier empty whatever it
    held; on an empty frontier it changes nothing; two resets are one. *)
Theorem C8_reset_empties (h : SplitCandidateHeap.t) :
  SplitCandidateHeap.reset h = (Ok tt, []) /\
  SplitCandidateHeap.reset [] = (Ok tt, []) /\
  (SplitCandidateHeap.reset ;; SplitCandidateHeap.reset) h = SplitCandidateHeap.reset h /\
  (SplitCandidateHeap.reset ;; SplitCandidateHeap.pop) h = (Raise IndexError, []).
Proof. repeat split. Qed.

(** *** C9 *)

(** C9 as stated fails on ties: the same two records of gain 1.5, admitted in
    the two possible orders, are popped in different orders. *)
Lemma C9_counterexample :
  admitted [2; 3]%Z [[0; 1; 0]; [1; 1; 0]]%Z [1; 2]%Z [1.5; 1.5]%float [true; true] ≡ₚ
  admitted [3; 2]%Z [[1; 1; 0]; [0; 1; 0]]%Z [2; 1]%Z [1.5; 1.5]%float [true; true] /\
  ((SplitCandidateHeap.batch_push [2; 3]%Z [[0; 1; 0]; [1; 1; 0]]%Z [1; 2]%Z
      [1.5; 1.5]%float [true; true] ;;
    SplitCandidateHeap.extract_best_split_info) []).1
  = Ok (2%Z, [0; 1; 0]%Z, 1%Z) /\
  ((SplitCandidateHeap.batch_push [3; 2]%Z [[1; 1; 0]; [0; 1; 0]]%Z [2; 1]%Z
      [1.5; 1.5]%float [true; true] ;;
    SplitCandidateHeap.extract_best_split_info) []).1
  = Ok (3%Z, [1; 1; 0]%Z, 2%Z).
Proof.
  split; [apply perm_swap |]. split; vm_compute; reflexivity.
Qed.

(** C9, amended: take a frontier reached by calls with rankable gains and two
    successful [batch_push] calls on it that admit the same records in
    different orders.  Popping until empty yields, position by position,
    records of equal gain; when no two stored records have equal gains it
    yields the same records in the same order.  (Among records of equal gain
    the order of the pops does depend on the order of insertion.) *)
Theorem C9_pop_order_by_gain (cs : list call)
    (ids1 : list Z) (masks1 : list (list Z)) (buckets1 : list Z)
    (gains1 : list float) (flags1 : list bool)
    (ids2 : list Z) (masks2 : list (list Z)) (buckets2 : list Z)
    (gains2 : list float) (flags2 : list bool)
    (h1 h2 : SplitCandidateHeap.t) :
  forallb call_ok cs = true ->
  call_ok (BatchPush ids1 masks1 buckets1 gains1 flags1) = true ->
  call_ok (BatchPush ids2 masks2 buckets2 gains2 flags2) = true ->
  let h := (run cs SplitCandidateHeap.__init__).2 in
  SplitCandidateHeap.batch_push ids1 masks1 buckets1 gains1 flags1 h = (Ok tt, h1) ->
  SplitCandidateHeap.batch_push ids2 masks2 buckets2 gains2 flags2 h = (Ok tt, h2) ->
  admitted ids1 masks1 buckets1 gains1 flags1 ≡ₚ admitted ids2 masks2 buckets2 gains2 flags2 ->
  exists l1 l2,
    pop_until_empty h1 = (Ok l1, []) /\
    pop_until_empty h2 = (Ok l2, []) /\
    Forall2 (fun a b => (gain a =? gain b)%float = true) l1 l2 /\
    (distinct_gains h1 = true -> l1 = l2).
Proof.
  intros Hcs Hc1 Hc2 h Hrun1 Hrun2 Hadm.
  assert (Hh : frontier_ok h) by (apply run_ok; [apply frontier_ok_nil | exact Hcs]).
  destruct (batch_push_run ids1 masks1 buckets1 gains1 flags1 h) as (h1' & Hb1 & Hp1 & Hok1).
  destruct (batch_push_run ids2 masks2 buckets2 gains2 flags2 h) as (h2' & Hb2 & Hp2 & Hok2).
  unfold processed in Hp1, Hp2. rewrite Hrun1 in Hb1. rewrite Hrun2 in Hb2.
  destruct (first_bad (record_at ids1 masks1 buckets1 gains1) 0 flags1); [discriminate |].
  destruct (first_bad (record_at ids2 masks2 buckets2 gains2) 0 flags2); [discriminate |].
  injection Hb1 as <-. injection Hb2 as <-.
  specialize (Hok1 Hh Hc1). specialize (Hok2 Hh Hc2).
  fold (admitted ids1 masks1 buckets1 gains1 flags1) in Hp1.
  fold (admitted ids2 masks2 buckets2 gains2 flags2) in Hp2.
  assert (H12 : h1 ≡ₚ h2) by now rewrite Hp1, Hp2, Hadm.
  destruct (pop_until_empty_run h1) as (l1 & Hd1 & Hl1 & Hs1).
  destruct (pop_until_empty_run h2) as (l2 & Hd2 & Hl2 & Hs2).
  specialize (Hs1 Hok1). specialize (Hs2 Hok2).
  assert (Hl : l1 ≡ₚ l2) by now rewrite Hl1, Hl2.
  exists l1, l2. split; [exact Hd1 |]. split; [exact Hd2 |]. split.
  - apply keys_eq_gains.
    + rewrite Hl1. apply Hok1.
    + rewrite Hl2. apply Hok2.
    + now apply sorted_perm_keys.
  - intros Hdist.
    apply (StronglySorted_unique_strong
             (fun a b => ge_float (gain a) (gain b)) l1 l2); [| exact Hs1 | exact Hs2 | exact Hl].
    intros x1 x2 Hx1 Hx2 R12 R21.
    apply (distinct_gains_inj h1 Hdist).
    + now rewrite <- Hl1.
    + now rewrite H12, <- Hl2.
    + destruct (leb_not_nan _ _ R12).
      apply eqb_key; auto. apply key_le_antisym; now apply ge_float_key.
Qed.

Lemma C9_pop_order_by_gain_witness :
  exists l1 l2,
    pop_until_empty
      [SplitCandidate.__init__ 3 [1; 1; 0]%Z 3%float 2;
       SplitCandidate.__init__ 1 [1; 0; 1]%Z 1%float 3;
       SplitCandidate.__init__ 2 [0; 1; 0]%Z 2%float 1] = (Ok l1, []) /\
    pop_until_empty
      [SplitCandidate.__init__ 3 [1; 1; 0]%Z 3%float 2;
       SplitCandidate.__init__ 2 [0; 1; 0]%Z 2%float 1;
       SplitCandidate.__init__ 1 [1; 0; 1]%Z 1%float 3] = (Ok l2, []) /\
    Forall2 (fun a b => (gain a =? gain b)%float = true) l1 l2 /\
    (distinct_gains
       [SplitCandidate.__init__ 3 [1; 1; 0]%Z 3%float 2;
        SplitCandidate.__init__ 1 [1; 0; 1]%Z 1%float 3;
        SplitCandidate.__init__ 2 [0; 1; 0]%Z 2%float 1] = true -> l1 = l2).
Proof.
  apply (C9_pop_order_by_gain []
           [1; 2; 3]%Z [[1; 0; 1]; [0; 1; 0]; [1; 1; 0]]%Z [3; 1; 2]%Z
           [1; 2; 3]%float [true; true; true]
           [3; 2; 1]%Z [[1; 1; 0]; [0; 1; 0]; [1; 0; 1]]%Z [2; 1; 3]%Z
           [3; 2; 1]%float [true; true; true]);
    try reflexivity.
  exact (Permutation_rev
           [SplitCandidate.__init__ 1 [1; 0; 1]%Z 1%float 3;
            SplitCandidate.__init__ 2 [0; 1; 0]%Z 2%float 1;
            SplitCandidate.__init__ 3 [1; 1; 0]%Z 3%float 2]).
Defined.

(** *** C10 *)

(** C10: the two lists handed back by [extract_all_nodes()] have the length
    of the frontier, and at every index they hold the node id and the sample
    mask of one and the same stored record, the one at that index of the
    backing list. *)
Theorem C10_extract_all_nodes_aligned (h : list SplitCandidate) :
  exists ids masks,
    SplitCandidateHeap.extract_all_nodes h = (Ok (ids, masks), []) /\
    length ids = length masks /\ length ids = length h /\
    forall i,
      (ids !! i, masks !! i) =
      match h !! i with
      | Some c => (Some (node_index c), Some (sample_selects (info c)))
      | None => (None, None)
      end.
Proof.
  exists (map node_index h), (map (fun c => sample_selects (info c)) h).
  split; [apply extract_all_nodes_run |]. rewrite !length_map.
  split; [reflexivity |]. split; [reflexivity |].
  intros i.
  change (map node_index h) with (node_index <$> h).
  change (map (fun c => sample_selects (info c)) h)
    with ((fun c => sample_selects (info c)) <$> h).
  rewrite !list_lookup_fmap. now destruct (h !! i).
Qed.

(** * Further properties of the code *)

(** ** The comparisons of [SplitCandidate] *)

Lemma ltb_not_nan a b : (a <? b)%float = true -> is_nan a = false /\ is_nan b = false.
Proof.
  rewrite ltb_spec. unfold SFltb. intros H.
  assert (Ha : Prim2SF a <> S754_nan) by (intros E; rewrite E in H; discriminate).
  assert (Hb : Prim2SF b <> S754_nan)
    by (intros E; rewrite E in H; destruct (Prim2SF a); discriminate).
  unfold is_nan. rewrite !FloatAxioms.eqb_spec. unfold SFeqb.
  destruct (SFcompare_key _ _ Ha Ha) as (c & -> & Hc).
  destruct (SFcompare_key _ _ Hb Hb) as (c' & -> & Hc').
  destruct Hc as [_ | L | L]; try (now apply key_lt_irrefl in L).
  destruct Hc' as [_ | L | L]; try (now apply key_lt_irrefl in L).
  auto.
Qed.

(** X1: [__lt__] is a strict order on all records, whatever their gains:
    no record is below itself, and it is transitive (hence asymmetric). *)
Theorem X1_lt_strict_order :
  (forall a, SplitCandidate.__lt__ a a = false) /\
  (forall a b c,
     SplitCandidate.__lt__ a b = true -> SplitCandidate.__lt__ b c = true ->
     SplitCandidate.__lt__ a c = true) /\
  (forall a b,
     SplitCandidate.__lt__ a b = true -> SplitCandidate.__lt__ b a = false).
Proof.
  assert (Hirr : forall a, SplitCandidate.__lt__ a a = false).
  { intros a. unfold SplitCandidate.__lt__.
    destruct (max_gain (info a) <? max_gain (info a))%float eqn:E; [| reflexivity].
    destruct (ltb_not_nan _ _ E) as [Ha _].
    apply (ltb_key _ _ Ha Ha) in E. now apply key_lt_irrefl in E. }
  assert (Htr : forall a b c,
     SplitCandidate.__lt__ a b = true -> SplitCandidate.__lt__ b c = true ->
     SplitCandidate.__lt__ a c = true).
  { intros a b c. unfold SplitCandidate.__lt__. intros H1 H2.
    destruct (ltb_not_nan _ _ H1) as [Hb Ha]. destruct (ltb_not_nan _ _ H2) as [Hc _].
    apply (ltb_key _ _ Hb Ha) in H1. apply (ltb_key _ _ Hc Hb) in H2.
    apply (ltb_key _ _ Hc Ha). eapply key_lt_trans; eauto. }
  split; [exact Hirr |]. split; [exact Htr |].
  intros a b H. destruct (SplitCandidate.__lt__ b a) eqn:E; [| reflexivity].
  rewrite <- (Hirr a). symmetry. eapply Htr; eauto.
Qed.

(** X2: for two records whose gains are not NaN exactly one of [a < b],
    [a == b], [b < a] holds. *)
Theorem X2_lt_eq_trichotomy (a b : SplitCandidate) :
  gain_ok (gain a) = true -> gain_ok (gain b) = true ->
  (SplitCandidate.__lt__ a b, SplitCandidate.__eq__ a b, SplitCandidate.__lt__ b a)
    = (true, false, false) \/
  (SplitCandidate.__lt__ a b, SplitCandidate.__eq__ a b, SplitCandidate.__lt__ b a)
    = (false, true, false) \/
  (SplitCandidate.__lt__ a b, SplitCandidate.__eq__ a b, SplitCandidate.__lt__ b a)
    = (false, false, true).
Proof.
  intros Ha%gain_ok_nan Hb%gain_ok_nan. unfold gain in *.
  unfold SplitCandidate.__lt__, SplitCandidate.__eq__.
  pose proof (ltb_key _ _ Hb Ha) as Hab. pose proof (ltb_key _ _ Ha Hb) as Hba.
  pose proof (eqb_key _ _ Ha Hb) as Heq.
  destruct (key_lt_total (float_key (max_gain (info a))) (float_key (max_gain (info b))))
    as [L | [E | G]].
  - right. right.
    destruct (max_gain (info b) <? max_gain (info a))%float eqn:E1.
    { exfalso. apply (key_lt_irrefl (float_key (max_gain (info a)))).
      eapply key_lt_trans; [exact L | now apply Hab]. }
    destruct (max_gain (info a) =? max_gain (info b))%float eqn:E2.
    { exfalso. rewrite (proj1 Heq eq_refl) in L. now apply key_lt_irrefl in L. }
    now rewrite (proj2 Hba L).
  - right. left.
    destruct (max_gain (info b) <? max_gain (info a))%float eqn:E1.
    { exfalso. pose proof (proj1 Hab eq_refl) as L. rewrite E in L.
      now apply key_lt_irrefl in L. }
    destruct (max_gain (info a) <? max_gain (info b))%float eqn:E3.
    { exfalso. pose proof (proj1 Hba eq_refl) as L. rewrite E in L.
      now apply key_lt_irrefl in L. }
    now rewrite (proj2 Heq E).
  - left.
    destruct (max_gain (info a) <? max_gain (info b))%float eqn:E3.
    { exfalso. apply (key_lt_irrefl (float_key (max_gain (info a)))).
      eapply key_lt_trans; [now apply Hba | exact G]. }
    destruct (max_gain (info a) =? max_gain (info b))%float eqn:E2.
    { exfalso. rewrite (proj1 Heq eq_refl) in G. now apply key_lt_irrefl in G. }
    now rewrite (proj2 Hab G).
Qed.

Lemma X2_lt_eq_trichotomy_witness :
  (SplitCandidate.__lt__ (SplitCandidate.__init__ 2 [0; 1; 0]%Z 1.5%float 1)
     (SplitCandidate.__init__ 1 [1; 0; 1]%Z 0.8%float 3),
   SplitCandidate.__eq__ (SplitCandidate.__init__ 2 [0; 1; 0]%Z 1.5%float 1)
     (SplitCandidate.__init__ 1 [1; 0; 1]%Z 0.8%float 3),
   SplitCandidate.__lt__ (SplitCandidate.__init__ 1 [1; 0; 1]%Z 0.8%float 3)
     (SplitCandidate.__init__ 2 [0; 1; 0]%Z 1.5%float 1))
    = (true, false, false) \/
  (SplitCandidate.__lt__ (SplitCandidate.__init__ 2 [0; 1; 0]%Z 1.5%float 1)
     (SplitCandidate.__init__ 1 [1; 0; 1]%Z 0.8%float 3),
   SplitCandidate.__eq__ (SplitCandidate.__init__ 2 [0; 1; 0]%Z 1.5%float 1)
     (SplitCandidate.__init__ 1 [1; 0; 1]%Z 0.8%float 3),
   SplitCandidate.__lt__ (SplitCandidate.__init__ 1 [1; 0; 1]%Z 0.8%float 3)
     (SplitCandidate.__init__ 2 [0; 1; 0]%Z 1.5%float 1))
    = (false, true, false) \/
  (SplitCandidate.__lt__ (SplitCandidate.__init__ 2 [0; 1; 0]%Z 1.5%float 1)
     (SplitCandidate.__init__ 1 [1; 0; 1]%Z 0.8%float 3),
   SplitCandidate.__eq__ (SplitCandidate.__init__ 2 [0; 1; 0]%Z 1.5%float 1)
     (SplitCandidate.__init__ 1 [1; 0; 1]%Z 0.8%float 3),
   SplitCandidate.__lt__ (SplitCandidate.__init__ 1 [1; 0; 1]%Z 0.8%float 3)
     (SplitCandidate.__init__ 2 [0; 1; 0]%Z 1.5%float 1))
    = (false, false, true).
Proof.
  apply (X2_lt_eq_trichotomy
           (SplitCandidate.__init__ 2 [0; 1; 0]%Z 1.5%float 1)
           (SplitCandidate.__init__ 1 [1; 0; 1]%Z 0.8%float 3)); reflexivity.
Defined.

(** X3: a record whose gain is NaN is neither below nor equal to any record,
    itself included, and no record is below or equal to it. *)
Theorem X3_nan_incomparable (a b : SplitCandidate) :
  is_nan (gain a) = true ->
  SplitCandidate.__lt__ a b = false /\ SplitCandidate.__lt__ b a = false /\
  SplitCandidate.__eq__ a b = false /\ SplitCandidate.__eq__ b a = false /\
  SplitCandidate.__eq__ a a = false.
Proof.
  intros Ha. unfold gain in Ha. unfold SplitCandidate.__lt__, SplitCandidate.__eq__.
  repeat split.
  - destruct (_ <? _)%float eqn:E; [| reflexivity].
    destruct (ltb_not_nan _ _ E). congruence.
  - destruct (_ <? _)%float eqn:E; [| reflexivity].
    destruct (ltb_not_nan _ _ E). congruence.
  - destruct (_ =? _)%float eqn:E; [| reflexivity].
    destruct (eqb_not_nan _ _ E). congruence.
  - destruct (_ =? _)%float eqn:E; [| reflexivity].
    destruct (eqb_not_nan _ _ E). congruence.
  - destruct (_ =? _)%float eqn:E; [| reflexivity].
    destruct (eqb_not_nan _ _ E). congruence.
Qed.

Lemma X3_nan_incomparable_witness :
  SplitCandidate.__lt__ (SplitCandidate.__init__ 2 [] nan 0)
    (SplitCandidate.__init__ 1 [] 1%float 0) = false /\
  SplitCandidate.__lt__ (SplitCandidate.__init__ 1 [] 1%float 0)
    (SplitCandidate.__init__ 2 [] nan 0) = false /\
  SplitCandidate.__eq__ (SplitCandidate.__init__ 2 [] nan 0)
    (SplitCandidate.__init__ 1 [] 1%float 0) = false /\
  SplitCandidate.__eq__ (SplitCandidate.__init__ 1 [] 1%float 0)
    (SplitCandidate.__init__ 2 [] nan 0) = false /\
  SplitCandidate.__eq__ (SplitCandidate.__init__ 2 [] nan 0)
    (SplitCandidate.__init__ 2 [] nan 0) = false.
Proof.
  apply (X3_nan_incomparable (SplitCandidate.__init__ 2 [] nan 0)
           (SplitCandidate.__init__ 1 [] 1%float 0)).
  reflexivity.
Defined.


(** ** The frontier, whatever the gains *)

(** X5: [push] never fails, whatever the frontier holds and whatever the
    gain (NaN included): the frontier then holds the new record besides the
    records it held, one record more. *)
Theorem X5_push_never_fails (a : Z) (b : list Z) (g : float) (d : Z)
    (h : SplitCandidateHeap.t) :
  exists h',
    SplitCandidateHeap.push a b g d h = (Ok tt, h') /\
    h' ≡ₚ SplitCandidate.__init__ a b g d :: h /\
    length h' = S (length h).
Proof.
  destruct (push_run a b g d h) as (h' & Hrun & Hperm & _).
  exists h'. split; [exact Hrun |]. split; [exact Hperm |].
  now rewrite Hperm.
Qed.

(** X6: on a non-empty frontier [pop] and [extract_best_split_info] never
    fail, whatever the gains: they return the record at the head of the backing
    list, the one [extract_all_nodes] lists first, and keep exactly the other
    records. *)
Theorem X6_pop_returns_head (x : SplitCandidate) (t : list SplitCandidate) :
  exists h',
    SplitCandidateHeap.pop (x :: t) = (Ok x, h') /\
    SplitCandidateHeap.extract_best_split_info (x :: t)
      = (Ok (node_index x, sample_selects (info x), split_bucket (info x)), h') /\
    h' ≡ₚ t /\
    exists ids masks,
      SplitCandidateHeap.extract_all_nodes (x :: t)
      = (Ok (node_index x :: ids, sample_selects (info x) :: masks), []).
Proof.
  destruct (pop_run (x :: t)) as (c & h' & Hrun & H0 & Hperm & _); [discriminate |].
  injection H0 as <-. exists h'. split; [exact Hrun |]. split; [| split].
  - unfold SplitCandidateHeap.extract_best_split_info, bind. now rewrite Hrun.
  - now apply Permutation_cons_inv in Hperm.
  - exists (map node_index t), (map (fun c => sample_selects (info c)) t).
    apply extract_all_nodes_run.
Qed.

(** X7: after every sequence of calls whose pushed gains are not NaN, failed
    calls included, the backing list is in heap order: no stored gain is NaN,
    and the gain at every position [i > 0] is at most the gain at position
    [(i - 1) / 2]. *)
Theorem X7_heap_order_kept (cs : list call) :
  forallb call_ok cs = true ->
  let h := (run cs SplitCandidateHeap.__init__).2 in
  (forall x, x ∈ h -> is_nan (gain x) = false) /\
  (forall i x p, 0 < i -> h !! i = Some x -> h !! ((i - 1) / 2) = Some p ->
     (gain x <=? gain p)%float = true).
Proof.
  intros Hcs h.
  assert (Hh : frontier_ok h) by (apply run_ok; [apply frontier_ok_nil | exact Hcs]).
  destruct Hh as [Hheap Hok]. rewrite Forall_forall in Hok. split.
  - intros x Hx. now apply gain_ok_nan, Hok.
  - intros i x p Hi Hx Hp.
    assert (Hokx : cand_ok x) by (apply Hok, list_elem_of_lookup; eauto).
    assert (Hokp : cand_ok p) by (apply Hok, list_elem_of_lookup; eauto).
    apply (cand_le_leb p x Hokp Hokx). exact (Hheap i x p Hi Hx Hp).
Qed.

Lemma X7_heap_order_kept_witness :
  let h := (run
    [Push 1 [1; 0; 1]%Z 0.8%float 3;
     BatchPush [2; 3]%Z [[0; 1; 0]; [1; 1; 0]]%Z [1; 2]%Z [1.5; 1.5]%float [true; true; true];
     Pop] SplitCandidateHeap.__init__).2 in
  (forall x, x ∈ h -> is_nan (gain x) = false) /\
  (forall i x p, 0 < i -> h !! i = Some x -> h !! ((i - 1) / 2) = Some p ->
     (gain x <=? gain p)%float = true).
Proof.
  apply (X7_heap_order_kept
    [Push 1 [1; 0; 1]%Z 0.8%float 3;
     BatchPush [2; 3]%Z [[0; 1; 0]; [1; 1; 0]]%Z [1; 2]%Z [1.5; 1.5]%float [true; true; true];
     Pop]).
  reflexivity.
Defined.

(** X8: on a frontier reached by calls whose pushed gains are not NaN,
    pushing a record whose gain is greater than every stored gain and popping
    right away returns that very record and leaves the records stored
    before. *)
Theorem X8_push_then_pop (cs : list call) (a : Z) (b : list Z) (g : float) (d : Z) :
  forallb call_ok cs = true ->
  gain_ok g = true ->
  let h := (run cs SplitCandidateHeap.__init__).2 in
  forallb (fun x => (gain x <? g)%float) h = true ->
  exists h',
    (SplitCandidateHeap.push a b g d ;; SplitCandidateHeap.pop) h
      = (Ok (SplitCandidate.__init__ a b g d), h') /\
    h' ≡ₚ h.
Proof.
  intros Hcs Hg h Hlt.
  assert (Hh : frontier_ok h) by (apply run_ok; [apply frontier_ok_nil | exact Hcs]).
  destruct (push_run a b g d h) as (h1 & Hrun & Hperm & Hok).
  specialize (Hok Hh Hg).
  assert (Hne : h1 <> []).
  { intros ->. apply Permutation_length in Hperm. discriminate. }
  destruct (pop_run h1 Hne) as (c & h' & Hpop & _ & Hperm' & Hmax).
  destruct (Hmax Hok) as [_ Hc].
  assert (Hin : c ∈ SplitCandidate.__init__ a b g d :: h).
  { rewrite <- Hperm, <- Hperm'. now left. }
  assert (c = SplitCandidate.__init__ a b g d) as ->.
  { apply elem_of_cons in Hin as [-> | Hin]; [reflexivity |]. exfalso.
    rewrite forallb_forall in Hlt. apply list_elem_of_In, Hlt in Hin.
    assert (Hge : (g <=? gain c)%float = true).
    { apply (Hc (SplitCandidate.__init__ a b g d)). rewrite Hperm. now left. }
    destruct (ltb_not_nan _ _ Hin) as [Hnc Hng].
    apply (ltb_key _ _ Hnc Hng) in Hin. apply (leb_key _ _ Hng Hnc) in Hge.
    destruct Hge as [E | L].
    - rewrite E in Hin. now apply key_lt_irrefl in Hin.
    - apply (key_lt_irrefl (float_key g)). eapply key_lt_trans; eauto. }
  exists h'. unfold bind. rewrite Hrun. split; [exact Hpop |].
  rewrite Hperm in Hperm'. now apply Permutation_cons_inv in Hperm'.
Qed.

Lemma X8_push_then_pop_witness :
  exists h',
    (SplitCandidateHeap.push 4 [1; 1; 1]%Z 2%float 0 ;; SplitCandidateHeap.pop)
      (run example_pushes SplitCandidateHeap.__init__).2
      = (Ok (SplitCandidate.__init__ 4 [1; 1; 1]%Z 2%float 0), h') /\
    h' ≡ₚ (run example_pushes SplitCandidateHeap.__init__).2.
Proof.
  apply (X8_push_then_pop example_pushes 4 [1; 1; 1]%Z 2%float 0); reflexivity.
Defined.

(** ** [batch_push] and single pushes *)

Lemma exec_push_record c h :
  exec (push_record c) h = (Ok [], (SplitCandidateHeap.push (node_index c)
    (sample_selects (info c)) (gain c) (split_bucket (info c)) h).2).
Proof.
  unfold push_record. cbn [exec]. unfold bind.
  destruct (push_run (node_index c) (sample_selects (info c)) (gain c)
              (split_bucket (info c)) h) as (h' & -> & _).
  reflexivity.
Qed.

Section batch_push_pushes.
Variables (ids : list Z) (masks : list (list Z)) (buckets : list Z)
          (gains : list float).

Let rec := record_at ids masks buckets gains.
Let body := fun (i : nat) (effective : bool) =>
  if effective
  then a <- lift (index ids i) ;;
       b <- lift (index masks i) ;;
       c <- lift (index gains i) ;;
       d <- lift (index buckets i) ;;
       SplitCandidateHeap.push a b c d
  else ret tt.

Lemma body_push i h :
  body i true h =
  match rec i with
  | Some c => SplitCandidateHeap.push (node_index c) (sample_selects (info c))
                (gain c) (split_bucket (info c)) h
  | None => (Raise IndexError, h)
  end.
Proof.
  unfold rec, record_at, body, bind, lift, index.
  destruct (ids !! i) as [a |], (masks !! i) as [b |], (gains !! i) as [c |],
    (buckets !! i) as [d |]; reflexivity.
Qed.

Lemma batch_loop_pushes flags : forall start h,
  (for_enumerate start flags body h).2 =
  (run (map push_record (admitted_from rec start (processed rec start flags))) h).2.
Proof.
  induction flags as [| f fl IH]; intros start h; [reflexivity |].
  unfold processed. cbn [for_enumerate first_bad]. unfold bind at 1. destruct f.
  - rewrite body_push. destruct (rec start) as [c |] eqn:Hc.
    + rewrite bool_decide_true by eauto. cbn [andb negb].
      destruct (push_run (node_index c) (sample_selects (info c)) (gain c)
                  (split_bucket (info c)) h) as (h1 & Hrun & _).
      rewrite Hrun, IH. unfold processed.
      assert (Hstep : forall fl',
        (run (map push_record (admitted_from rec start (true :: fl'))) h).2 =
        (run (map push_record (admitted_from rec (S start) fl')) h1).2).
      { intros fl'.
        change (admitted_from rec start (true :: fl'))
          with (option_list (rec start) ++ admitted_from rec (S start) fl').
        rewrite Hc.
        change (map push_record (option_list (Some c) ++ admitted_from rec (S start) fl'))
          with (push_record c :: map push_record (admitted_from rec (S start) fl')).
        rewrite run_cons, exec_push_record, Hrun. reflexivity. }
      destruct (first_bad rec (S start) fl) as [k |] eqn:Hk.
      * pose proof Hk as Hge. apply (first_bad_ge ids masks buckets gains) in Hge.
        replace (k - start) with (S (k - S start)) by lia. cbn [take].
        now rewrite Hstep.
      * now rewrite Hstep.
    + rewrite bool_decide_false by (intros [? ?]; discriminate). cbn [andb negb].
      rewrite Nat.sub_diag. reflexivity.
  - cbn [andb]. change (body start false h) with (@Ok unit tt, h).
    cbv beta iota. rewrite IH. unfold processed.
    destruct (first_bad rec (S start) fl) as [k |] eqn:Hk; [| reflexivity].
    pose proof Hk as Hge. apply (first_bad_ge ids masks buckets gains) in Hge.
    replace (k - start) with (S (k - S start)) by lia. reflexivity.
Qed.

Lemma batch_loop_no_flag flags : forall start h,
  forallb negb flags = true -> for_enumerate start flags body h = (Ok tt, h).
Proof.
  induction flags as [| f fl IH]; intros start h Hf; [reflexivity |].
  simpl in Hf. apply andb_prop in Hf as [Hf Hfl]. destruct f; [discriminate |].
  cbn [for_enumerate]. unfold bind. change (body start false h) with (@Ok unit tt, h).
  now apply IH.
Qed.

End batch_push_pushes.

(** X9: [batch_push] leaves the backing list exactly as pushing, one by one
    and in index order, the records at the true flags does; when it fails,
    exactly as pushing those below the index at which it fails. *)
Theorem X9_batch_push_is_pushes
    (ids : list Z) (masks : list (list Z)) (buckets : list Z)
    (gains : list float) (flags : list bool) (h : SplitCandidateHeap.t) :
  (SplitCandidateHeap.batch_push ids masks buckets gains flags h).2 =
  (run (map push_record (pushed_records (BatchPush ids masks buckets gains flags))) h).2.
Proof. apply batch_loop_pushes. Qed.

(** X10: when no flag is true [batch_push] returns normally and leaves the
    frontier untouched, whatever the four other arrays are (they are not
    read). *)
Theorem X10_batch_push_no_flag
    (ids : list Z) (masks : list (list Z)) (buckets : list Z)
    (gains : list float) (flags : list bool) (h : SplitCandidateHeap.t) :
  forallb negb flags = true ->
  SplitCandidateHeap.batch_push ids masks buckets gains flags h = (Ok tt, h).
Proof. apply batch_loop_no_flag. Qed.

Lemma X10_batch_push_no_flag_witness :
  SplitCandidateHeap.batch_push [] [] [7]%Z [] [false; false]
    [SplitCandidate.__init__ 1 [1; 0; 1]%Z 0.8%float 3]
  = (Ok tt, [SplitCandidate.__init__ 1 [1; 0; 1]%Z 0.8%float 3]).
Proof.
  apply (X10_batch_push_no_flag [] [] [7]%Z [] [false; false]
           [SplitCandidate.__init__ 1 [1; 0; 1]%Z 0.8%float 3]).
  reflexivity.
Defined.

Lemma admitted_from_length rec flags : forall start,
  (forall i, flags !! i = Some true -> is_Some (rec (start + i))) ->
  length (admitted_from rec start flags) = length (filter (fun f => f = true) flags).
Proof.
  induction flags as [| f fl IH]; intros start H; [reflexivity |].
  cbn [admitted_from]. rewrite length_app, IH.
  - destruct f.
    + destruct (H 0 eq_refl) as [c Hc]. rewrite Nat.add_0_r in Hc. rewrite Hc.
      rewrite filter_cons_True by reflexivity. reflexivity.
    + rewrite filter_cons_False by discriminate. reflexivity.
  - intros i Hi. replace (S start + i) with (start + S i) by lia. now apply H.
Qed.

(** X11: a [batch_push] that returns normally makes the frontier grow by the
    number of true flags. *)
Theorem X11_batch_push_size
    (ids : list Z) (masks : list (list Z)) (buckets : list Z)
    (gains : list float) (flags : list bool) (h h' : SplitCandidateHeap.t) :
  SplitCandidateHeap.batch_push ids masks buckets gains flags h = (Ok tt, h') ->
  length h' = length h + length (filter (fun f => f = true) flags).
Proof.
  intros Hrun.
  destruct (batch_push_run ids masks buckets gains flags h) as (h1 & Hb & Hperm & _).
  rewrite Hrun in Hb. unfold processed in Hperm.
  destruct (first_bad (record_at ids masks buckets gains) 0 flags) eqn:Hk; [discriminate |].
  injection Hb as <-. rewrite Hperm, length_app. f_equal.
  apply admitted_from_length. now apply first_bad_None.
Qed.

Lemma X11_batch_push_size_witness :
  length [SplitCandidate.__init__ 12 [1]%Z 3%float 2;
          SplitCandidate.__init__ 10 [1; 0]%Z 2%float 0]
  = length (@nil SplitCandidate) + length (filter (fun f => f = true) [true; false; true]).
Proof.
  apply (X11_batch_push_size [10; 11; 12]%Z [[1; 0]; [0; 1]; [1]]%Z [0; 1; 2]%Z
           [2; 0.1; 3]%float [true; false; true] []).
  reflexivity.
Defined.

(** ** Nothing is lost or made up *)

Lemma exec_conserves c h :
  (match (exec c h).1 with Ok o => o | Raise _ => [] end)
    ++ map node_pair (exec c h).2 ⊆+ map node_pair (pushed_records c ++ h) /\
  (is_reset c = false ->
   (match (exec c h).1 with Ok o => o | Raise _ => [] end)
     ++ map node_pair (exec c h).2 ≡ₚ map node_pair (pushed_records c ++ h)).
Proof.
  assert (Hgoal :
    is_reset c = true /\ (exec c h).1 = Ok [] /\ (exec c h).2 = [] /\ pushed_records c = [] \/
    (match (exec c h).1 with Ok o => o | Raise _ => [] end)
      ++ map node_pair (exec c h).2 ≡ₚ map node_pair (pushed_records c ++ h)).
  { destruct c as [a b g d | ids masks buckets gains flags | | | |]; cbn [exec pushed_records].
    - right. destruct (push_run a b g d h) as (h' & Hrun & Hperm & _).
      unfold bind. rewrite Hrun. cbn [fst snd ret app]. now rewrite Hperm.
    - right. destruct (batch_push_run ids masks buckets gains flags h) as (h' & Hrun & Hperm & _).
      unfold bind. rewrite Hrun.
      destruct (first_bad _ _ _); cbn [fst snd ret app]; rewrite Hperm;
        apply fmap_Permutation, Permutation_app_comm.
    - right. destruct h as [| x0 t]; [reflexivity |].
      destruct (pop_run (x0 :: t)) as (c & h' & Hrun & _ & Hperm & _); [discriminate |].
      unfold bind. rewrite Hrun. cbn [fst snd ret app]. now rewrite <- Hperm.
    - right. destruct h as [| x0 t]; [reflexivity |].
      destruct (pop_run (x0 :: t)) as (c & h' & Hrun & _ & Hperm & _); [discriminate |].
      unfold SplitCandidateHeap.extract_best_split_info, bind. rewrite Hrun.
      cbn [fst snd ret app]. now rewrite <- Hperm.
    - right. unfold bind. rewrite extract_all_nodes_run. cbn [fst snd ret app map].
      now rewrite zip_fmap_pair, app_nil_r.
    - left. repeat split. }
  destruct Hgoal as [(Hr & Ho & Hs & Hp) | Hperm].
  - split; [| congruence]. rewrite Ho, Hs. apply submseteq_nil_l.
  - split; [now apply Permutation_submseteq | auto].
Qed.

Lemma run_conserves cs : forall h,
  (run cs h).1 ++ map node_pair (run cs h).2
    ⊆+ map node_pair (concat (map pushed_records cs) ++ h) /\
  (forallb (fun c => negb (is_reset c)) cs = true ->
   (run cs h).1 ++ map node_pair (run cs h).2
     ≡ₚ map node_pair (concat (map pushed_records cs) ++ h)).
Proof.
  induction cs as [| c cs IH]; intros h; [split; reflexivity |].
  rewrite run_cons. cbn [fst snd map concat].
  destruct (exec_conserves c h) as [Hsub Hperm].
  destruct (IH (exec c h).2) as [IHsub IHperm].
  set (o := match (exec c h).1 with Ok o => o | Raise _ => [] end) in *.
  set (h1 := (exec c h).2) in *.
  set (P := concat (map pushed_records cs)) in *.
  assert (H1 : o ++ map node_pair (P ++ h1) ≡ₚ map node_pair P ++ (o ++ map node_pair h1)).
  { rewrite List.map_app, !app_assoc. apply Permutation_app_tail, Permutation_app_comm. }
  assert (H2 : map node_pair P ++ map node_pair (pushed_records c ++ h)
               ≡ₚ map node_pair ((pushed_records c ++ P) ++ h)).
  { rewrite <- List.map_app. apply fmap_Permutation.
    rewrite !app_assoc. apply Permutation_app_tail, Permutation_app_comm. }
  rewrite <- app_assoc. split.
  - transitivity (o ++ map node_pair (P ++ h1));
      [apply submseteq_app; [reflexivity | exact IHsub] |].
    rewrite H1, <- H2. apply submseteq_app; [reflexivity | exact Hsub].
  - intros Hcs. cbn [forallb] in Hcs. apply andb_prop in Hcs as [Hc Hcs].
    apply negb_true_iff in Hc.
    rewrite (IHperm Hcs), H1, <- H2. apply Permutation_app_head. now apply Hperm.
Qed.

(** X12: along every sequence of calls on a fresh frontier, whatever the
    gains and the failures, the (node id, sample mask) pairs handed back so
    far together with those still stored form a sub-multiset of the pairs of
    the records pushed: nothing is handed back that was not pushed, and nothing
    more often than it was pushed. *)
Theorem X12_nothing_made_up (cs : list call) :
  (run cs SplitCandidateHeap.__init__).1
    ++ map node_pair (run cs SplitCandidateHeap.__init__).2
  ⊆+ map node_pair (concat (map pushed_records cs)).
Proof.
  destruct (run_conserves cs SplitCandidateHeap.__init__) as [H _].
  now rewrite app_nil_r in H.
Qed.

(** X13: when the calls contain no [reset], nothing is lost either: the
    pairs handed back so far together with those still stored are exactly,
    up to order, the pairs of the records pushed. *)
Theorem X13_nothing_lost (cs : list call) :
  forallb (fun c => negb (is_reset c)) cs = true ->
  (run cs SplitCandidateHeap.__init__).1
    ++ map node_pair (run cs SplitCandidateHeap.__init__).2
  ≡ₚ map node_pair (concat (map pushed_records cs)).
Proof.
  intros Hcs. destruct (run_conserves cs SplitCandidateHeap.__init__) as [_ H].
  specialize (H Hcs). now rewrite app_nil_r in H.
Qed.

Lemma X13_nothing_lost_witness :
  (run (example_pushes ++ [ExtractBestSplitInfo; Pop]) SplitCandidateHeap.__init__).1
    ++ map node_pair
         (run (example_pushes ++ [ExtractBestSplitInfo; Pop]) SplitCandidateHeap.__init__).2
  ≡ₚ map node_pair
       (concat (map pushed_records (example_pushes ++ [ExtractBestSplitInfo; Pop]))).
Proof.
  apply (X13_nothing_lost (example_pushes ++ [ExtractBestSplitInfo; Pop])).
  reflexivity.
Defined.

(** ** The manager *)

Lemma manager_run_cons c cs m :
  manager_run (c :: cs) m =
  ((match (manager_exec c m).1 with Ok o => o | Raise _ => [] end)
     ++ (manager_run cs (manager_exec c m).2).1,
   (manager_run cs (manager_exec c m).2).2).
Proof.
  simpl. destruct (manager_exec c m) as [r m']. simpl. now destruct (manager_run cs m').
Qed.

Lemma manager_exec_unbound c m :
  SplitCandidateManager.heap m = None -> is_set_devices c = false ->
  (match (manager_exec c m).1 with Ok o => o | Raise _ => [] end) = [] /\
  (manager_exec c m).2 = m.
Proof.
  intros Hm Hc. destruct c; try discriminate; try (split; reflexivity);
    cbn [manager_exec]; unfold bind, SplitCandidateManager.push,
      SplitCandidateManager.batch_push, SplitCandidateManager.extract_best_split_info,
      SplitCandidateManager.extract_all_nodes, SplitCandidateManager.reset,
      SplitCandidateManager.on_heap; rewrite Hm; split; reflexivity.
Qed.

Lemma manager_run_unbound cs : forall m,
  SplitCandidateManager.heap m = None ->
  forallb (fun c => negb (is_set_devices c)) cs = true ->
  manager_run cs m = ([], m).
Proof.
  induction cs as [| c cs IH]; intros m Hm Hcs; [reflexivity |].
  cbn [forallb] in Hcs. apply andb_prop in Hcs as [Hc Hcs]. apply negb_true_iff in Hc.
  rewrite manager_run_cons.
  destruct (manager_exec_unbound c m Hm Hc) as [-> ->].
  now rewrite (IH m Hm Hcs).
Qed.

(** X14: no call but [set_devices] binds the manager: after any sequence of
    other calls on a fresh manager ([show_params], [set_params], [get_params]
    and the five frontier calls, which all fail) the manager is as [__init__]
    left it and nothing was handed back. *)
Theorem X14_only_set_devices_binds (cs : list manager_call) :
  forallb (fun c => negb (is_set_devices c)) cs = true ->
  manager_run cs SplitCandidateManager.__init__ = ([], SplitCandidateManager.__init__).
Proof. intros Hcs. now apply manager_run_unbound. Qed.

Lemma X14_only_set_devices_binds_witness :
  manager_run
    [SetParams; ManagerPush 1 [1; 0; 1]%Z 0.8%float 3; ShowParams;
     ManagerExtractAllNodes; GetParams; ManagerReset]
    SplitCandidateManager.__init__
  = ([], SplitCandidateManager.__init__).
Proof.
  apply (X14_only_set_devices_binds
    [SetParams; ManagerPush 1 [1; 0; 1]%Z 0.8%float 3; ShowParams;
     ManagerExtractAllNodes; GetParams; ManagerReset]).
  reflexivity.
Defined.

Lemma manager_exec_bound c m h :
  SplitCandidateManager.heap m = Some h -> is_set_devices c = false ->
  manager_exec c m =
  match delegate c with
  | Some c' =>
      ((exec c' h).1,
       {| SplitCandidateManager.params := SplitCandidateManager.params m;
          SplitCandidateManager.label_holder := SplitCandidateManager.label_holder m;
          SplitCandidateManager.heap := Some (exec c' h).2 |})
  | None => (Ok [], m)
  end.
Proof.
  intros Hm Hc. destruct c; try discriminate; try reflexivity;
    cbn [manager_exec delegate exec]; unfold bind, SplitCandidateManager.push,
      SplitCandidateManager.batch_push, SplitCandidateManager.extract_best_split_info,
      SplitCandidateManager.extract_all_nodes, SplitCandidateManager.reset,
      SplitCandidateManager.on_heap; rewrite Hm.
  - now destruct (SplitCandidateHeap.push _ _ _ _ h) as [[] ?].
  - now destruct (SplitCandidateHeap.batch_push _ _ _ _ _ h) as [[] ?].
  - now destruct (SplitCandidateHeap.extract_best_split_info h) as [[] ?].
  - now destruct (SplitCandidateHeap.extract_all_nodes h) as [[] ?].
  - reflexivity.
Qed.

Lemma manager_run_bound cs : forall m h,
  SplitCandidateManager.heap m = Some h ->
  forallb (fun c => negb (is_set_devices c)) cs = true ->
  manager_run cs m =
  ((run (omap delegate cs) h).1,
   {| SplitCandidateManager.params := SplitCandidateManager.params m;
      SplitCandidateManager.label_holder := SplitCandidateManager.label_holder m;
      SplitCandidateManager.heap := Some (run (omap delegate cs) h).2 |}).
Proof.
  induction cs as [| c cs IH]; intros m h Hm Hcs.
  - destruct m as [p l hp]. simpl in *. now subst.
  - cbn [forallb] in Hcs. apply andb_prop in Hcs as [Hc Hcs]. apply negb_true_iff in Hc.
    rewrite manager_run_cons, (manager_exec_bound c m h Hm Hc). cbn [omap list_omap].
    destruct (delegate c) as [c' |].
    + cbn [fst snd].
      rewrite run_cons,
        (IH {| SplitCandidateManager.params := SplitCandidateManager.params m;
               SplitCandidateManager.label_holder := SplitCandidateManager.label_holder m;
               SplitCandidateManager.heap := Some (exec c' h).2 |}
            (exec c' h).2 eq_refl Hcs).
      reflexivity.
    + cbn [fst snd]. rewrite (IH m h Hm Hcs). reflexivity.
Qed.

(** X15: after [set_devices] the manager is a pure façade: for every
    sequence of further calls other than [set_devices], what is handed back
    and what the owned frontier holds are what the corresponding frontier
    calls give on an empty frontier, the parameter calls doing nothing;
    [params] is untouched and [label_holder] stays the bound device.  The
    manager's state before [set_devices] plays no part: binding again drops
    the records that were pending. *)
Theorem X15_manager_delegates (devices : Devices) (cs : list manager_call)
    (m : SplitCandidateManager.t) :
  forallb (fun c => negb (is_set_devices c)) cs = true ->
  manager_run (SetDevices devices :: cs) m =
  ((run (omap delegate cs) SplitCandidateHeap.__init__).1,
   {| SplitCandidateManager.params := SplitCandidateManager.params m;
      SplitCandidateManager.label_holder := Some (devices_label_holder devices);
      SplitCandidateManager.heap :=
        Some (run (omap delegate cs) SplitCandidateHeap.__init__).2 |}).
Proof.
  intros Hcs. rewrite manager_run_cons.
  cbn [manager_exec]. unfold bind, SplitCandidateManager.set_devices. cbn [fst snd ret app].
  now rewrite (manager_run_bound cs
    {| SplitCandidateManager.params := SplitCandidateManager.params m;
       SplitCandidateManager.label_holder := Some (devices_label_holder devices);
       SplitCandidateManager.heap := Some SplitCandidateHeap.__init__ |}
    SplitCandidateHeap.__init__ eq_refl Hcs).
Qed.

Lemma X15_manager_delegates_witness :
  manager_run
    (SetDevices {| devices_label_holder := 7 |} ::
     [ManagerPush 1 [1; 0; 1]%Z 0.8%float 3; SetParams;
      ManagerBatchPush [2; 3]%Z [[0; 1; 0]; [1; 1; 0]]%Z [1; 2]%Z [1.5; 1.5]%float
        [true; true];
      ManagerExtractBestSplitInfo])
    {| SplitCandidateManager.params := None;
       SplitCandidateManager.label_holder := Some 3;
       SplitCandidateManager.heap :=
         Some [SplitCandidate.__init__ 9 [1]%Z 4%float 0] |}
  = ((run (omap delegate
             [ManagerPush 1 [1; 0; 1]%Z 0.8%float 3; SetParams;
              ManagerBatchPush [2; 3]%Z [[0; 1; 0]; [1; 1; 0]]%Z [1; 2]%Z
                [1.5; 1.5]%float [true; true];
              ManagerExtractBestSplitInfo]) SplitCandidateHeap.__init__).1,
     {| SplitCandidateManager.params := None;
        SplitCandidateManager.label_holder := Some 7;
        SplitCandidateManager.heap :=
          Some (run (omap delegate
             [ManagerPush 1 [1; 0; 1]%Z 0.8%float 3; SetParams;
              ManagerBatchPush [2; 3]%Z [[0; 1; 0]; [1; 1; 0]]%Z [1; 2]%Z
                [1.5; 1.5]%float [true; true];
              ManagerExtractBestSplitInfo]) SplitCandidateHeap.__init__).2 |}).
Proof.
  apply (X15_manager_delegates {| devices_label_holder := 7 |}
    [ManagerPush 1 [1; 0; 1]%Z 0.8%float 3; SetParams;
     ManagerBatchPush [2; 3]%Z [[0; 1; 0]; [1; 1; 0]]%Z [1; 2]%Z [1.5; 1.5]%float
       [true; true];
     ManagerExtractBestSplitInfo]).
  reflexivity.
Defined.

(** The manager example, evaluated: node 2 is handed back, nodes 1 and 3 stay. *)
Example manager_example_run :
  (manager_run
     [SetDevices {| devices_label_holder := 7 |};
      ManagerPush 1 [1; 0; 1]%Z 0.8%float 3;
      ManagerBatchPush [2; 3]%Z [[0; 1; 0]; [1; 1; 0]]%Z [1; 2]%Z [1.5; 1.5]%float
        [true; true];
      ManagerExtractBestSplitInfo;
      ManagerExtractAllNodes]
     SplitCandidateManager.__init__).1
  = [(2, [0; 1; 0]); (3, [1; 1; 0]); (1, [1; 0; 1])]%Z.
Proof. vm_compute. reflexivity. Qed.
